(** * Snake: the game state machine of [script.ts]

    A shallow embedding of the game logic of [src/script.ts]: the module-level
    variables become one [State] record that every function takes and
    returns, the two calls of [Math.random] made by [createFood] become
    two explicit draws, and an access to [snake[0]] on an empty array (a
    [TypeError] in JavaScript, raised before the function has written
    anything) becomes [None].

    Numbers.  Every coordinate, velocity and score the program handles is an
    integer far below 2^53, where JavaScript's doubles are exact, so they are
    modelled in [Z].  The only fractional values are the draws of
    [Math.random] and the quotient rounded by [Math.round]; they are
    modelled in [Q] with exact arithmetic.

    Rendering ([clearBoard], [drawFood], [drawSnake], the score text and the
    game-over text) reads the state and never writes it; the functions on
    [State] leave it out, and the module [Browser] further down adds it,
    together with the callbacks waiting in [setTimeout]. *)

From Stdlib Require Import ZArith QArith Qround String DecimalString List Bool Lia Lqa.
Import ListNotations.

Local Open Scope Z_scope.

(** ** Data *)

(** One element of the [snake] array: [{x: number, y: number}]. *)
Record Segment : Type := mkSegment { x : Z; y : Z }.

(** The module-level [let] variables.  [foodX] and [foodY] are declared
    without an initialiser, so they hold [undefined] ([None]) until
    [createFood] has run. *)
Record State : Type := mkState {
  running   : bool;
  xVelocity : Z;
  yVelocity : Z;
  foodX     : option Z;
  foodY     : option Z;
  score     : Z;
  snake     : list Segment
}.

Definition set_running (b : bool) (s : State) : State :=
  mkState b (xVelocity s) (yVelocity s) (foodX s) (foodY s) (score s) (snake s).

Definition set_velocity (vx vy : Z) (s : State) : State :=
  mkState (running s) vx vy (foodX s) (foodY s) (score s) (snake s).

Definition set_food (fx fy : Z) (s : State) : State :=
  mkState (running s) (xVelocity s) (yVelocity s) (Some fx) (Some fy)
          (score s) (snake s).

Definition set_score (n : Z) (s : State) : State :=
  mkState (running s) (xVelocity s) (yVelocity s) (foodX s) (foodY s) n (snake s).

Definition set_snake (l : list Segment) (s : State) : State :=
  mkState (running s) (xVelocity s) (yVelocity s) (foodX s) (foodY s) (score s) l.

(** [const unitSize: number = 25]. *)
Definition unitSize : Z := 25.

(** The array literal of the declaration of [snake] and of [resetGame]. *)
Definition startSnake : list Segment :=
  [ mkSegment (unitSize * 4) 0;
    mkSegment (unitSize * 3) 0;
    mkSegment (unitSize * 2) 0;
    mkSegment unitSize 0;
    mkSegment 0 0 ].

(** The values of the variables when the script has run its declarations and
    has not yet called [gameStart]. *)
Definition script_globals : State :=
  mkState false unitSize 0 None None 0 startSnake.

(** [a === b] for a number [a] and a variable [b] that may still be
    [undefined]. *)
Definition strict_eq (a : Z) (b : option Z) : bool :=
  match b with
  | Some v => a =? v
  | None => false
  end.

(** [Math.round]: the nearest integer, halves going up. *)
Definition Math_round (q : Q) : Z := Qfloor (q + (1 # 2)).

(** The inner function of [createFood]; [rnd] is the value of
    [Math.random()]. *)
Definition randomFood (rnd : Q) (min max : Z) : Z :=
  Math_round ((rnd * inject_Z (max - min) + inject_Z min) / inject_Z unitSize)
  * unitSize.

(** The keys [changeDirection] reacts to, as the direction they ask for. *)
Inductive Direction : Type := DLeft | DUp | DRight | DDown.

Definition key_of (d : Direction) : string :=
  match d with
  | DLeft => "ArrowLeft"
  | DUp => "ArrowUp"
  | DRight => "ArrowRight"
  | DDown => "ArrowDown"
  end.

(** The unit step of a direction; the canvas has its y axis pointing down. *)
Definition step_of (d : Direction) : Z * Z :=
  match d with
  | DLeft => (- unitSize, 0)
  | DUp => (0, - unitSize)
  | DRight => (unitSize, 0)
  | DDown => (0, unitSize)
  end.

Definition velocity (s : State) : Z * Z := (xVelocity s, yVelocity s).

Definition food (s : State) : option Z * option Z := (foodX s, foodY s).

(** A small error monad for the functions that read [snake[0]]. *)
Definition bind {A B : Type} (m : option A) (k : A -> option B) : option B :=
  match m with
  | Some a => k a
  | None => None
  end.

Notation "'do' a <- m ; k" := (bind m (fun a => k))
  (at level 10, a name, m at level 100, k at level 200).

(** ** The functions of the script *)

Section Board.

(** [gameBoard.width] and [gameBoard.height], read once from the canvas. *)
Variables gameWidth gameHeight : Z.

Definition createFood (r1 r2 : Q) (s : State) : State :=
  set_food (randomFood r1 0 (gameWidth - unitSize))
           (randomFood r2 0 (gameWidth - unitSize)) s.

Definition displayGameOver (s : State) : State := set_running false s.

(** [nextTick] either arms the timer, which writes nothing, or shows the
    game-over text. *)
Definition nextTick (s : State) : State :=
  if running s then s else displayGameOver s.

Definition gameStart (r1 r2 : Q) (s : State) : State :=
  nextTick (createFood r1 r2 (set_running true s)).

Definition moveSnake (r1 r2 : Q) (s : State) : option State :=
  match snake s with
  | [] => None
  | s0 :: _ =>
      let headOfSnake := mkSegment (x s0 + xVelocity s) (y s0 + yVelocity s) in
      let s1 := set_snake (headOfSnake :: snake s) s in
      if strict_eq (x headOfSnake) (foodX s1) && strict_eq (y headOfSnake) (foodY s1)
      then Some (createFood r1 r2 (set_score (score s1 + 1) s1))
      else Some (set_snake (removelast (snake s1)) s1)
  end.

(** The [switch (true)] of [changeDirection]: the first case whose
    condition holds runs, and a key matched by no case changes nothing. *)
Definition changeDirection (keyPressed : string) (s : State) : State :=
  let goingLeft := xVelocity s =? - unitSize in
  let goingUp := yVelocity s =? - unitSize in
  let goingRight := xVelocity s =? unitSize in
  let goingDown := yVelocity s =? unitSize in
  if String.eqb keyPressed "ArrowLeft" && negb goingRight
  then set_velocity (- unitSize) 0 s
  else if String.eqb keyPressed "ArrowUp" && negb goingDown
  then set_velocity 0 (- unitSize) s
  else if String.eqb keyPressed "ArrowRight" && negb goingLeft
  then set_velocity unitSize 0 s
  else if String.eqb keyPressed "ArrowDown" && negb goingUp
  then set_velocity 0 unitSize s
  else s.

(** One iteration of the [for] loop of [checkGameOver]. *)
Definition hitSegment (s0 : Segment) (st : State) (si : Segment) : State :=
  if (x si =? x s0) && (y si =? y s0) then set_running false st else st.

Definition checkGameOver (s : State) : option State :=
  match snake s with
  | [] => None
  | s0 :: rest =>
      let s1 :=
        if x s0 <? 0 then set_running false s
        else if x s0 >=? gameWidth then set_running false s
        else if y s0 <? 0 then set_running false s
        else if y s0 >=? gameHeight then set_running false s
        else s in
      Some (fold_left (hitSegment s0) rest s1)
  end.

Definition resetGame (r1 r2 : Q) (s : State) : State :=
  gameStart r1 r2
    (set_snake startSnake (set_velocity unitSize 0 (set_score 0 s))).

(** The callback [nextTick] hands to [setTimeout]. *)
Definition tick (r1 r2 : Q) (s : State) : option State :=
  do s1 <- moveSnake r1 r2 s;
  do s2 <- checkGameOver s1;
  Some (nextTick s2).

(** ** Reachable states *)

(** What can run after the script has loaded: the functions the timer
    callback calls and the two event handlers.  The callback does not look at
    [running] itself (only the [nextTick] that armed it did, and a click on
    the reset button while a timer is pending arms a second one), so every
    function is allowed in every state. *)
Inductive Op : Type :=
| OpMove (r1 r2 : Q)
| OpCheck
| OpNextTick
| OpKey (keyPressed : string)
| OpReset (r1 r2 : Q).

Definition run_op (o : Op) (s : State) : option State :=
  match o with
  | OpMove r1 r2 => moveSnake r1 r2 s
  | OpCheck => checkGameOver s
  | OpNextTick => Some (nextTick s)
  | OpKey k => Some (changeDirection k s)
  | OpReset r1 r2 => Some (resetGame r1 r2 s)
  end.

Inductive reachable : State -> Prop :=
| reach_load r1 r2 : reachable (gameStart r1 r2 script_globals)
| reach_op o s s' : reachable s -> run_op o s = Some s' -> reachable s'.

(** The four velocities of the data model. *)
Definition unit_step (s : State) : Prop :=
  velocity s = (unitSize, 0) \/ velocity s = (- unitSize, 0) \/
  velocity s = (0, unitSize) \/ velocity s = (0, - unitSize).

(** [d] asks for the exact reverse of the current velocity. *)
Definition reverses (d : Direction) (s : State) : Prop :=
  step_of d = (- xVelocity s, - yVelocity s).

(** The board and the food as [createFood] is documented to relate them. *)
Definition on_grid (v : Z) : Prop := (unitSize | v).

Definition food_on_board (s : State) : Prop :=
  exists fx fy, foodX s = Some fx /\ foodY s = Some fy /\
    on_grid fx /\ on_grid fy /\
    0 <= fx <= gameWidth - unitSize /\ 0 <= fy <= gameHeight - unitSize.

End Board.

(** ** Sample states on a 500 x 500 board *)

(** The state after loading, with draws that put the food at (0, 350). *)
Definition loaded : State := gameStart 500 0 (3 # 4) script_globals.

(** The same with the food one step ahead of the head, at (125, 0). *)
Definition loaded_fed : State := set_food 125 0 loaded.

(** A snake curled in a square of four cells, its head about to move down
    into the cell of its tail. *)
Definition curled : State :=
  set_velocity 0 unitSize
    (set_snake [mkSegment 0 0; mkSegment 25 0; mkSegment 25 25; mkSegment 0 25]
       loaded).

(** ** The shape of the snake *)

(** A segment whose two coordinates are multiples of [unitSize]. *)
Definition aligned (p : Segment) : Prop := on_grid (x p) /\ on_grid (y p).

(** Two cells side by side: one [unitSize] apart along one axis. *)
Definition neighbours (a b : Segment) : Prop :=
  (x a - x b, y a - y b) = (unitSize, 0) \/
  (x a - x b, y a - y b) = (- unitSize, 0) \/
  (x a - x b, y a - y b) = (0, unitSize) \/
  (x a - x b, y a - y b) = (0, - unitSize).

(** Every segment is a neighbour of the one behind it. *)
Fixpoint chain (l : list Segment) : Prop :=
  match l with
  | a :: (b :: _) as t => neighbours a b /\ chain t
  | _ => True
  end.

(** ** [changeDirection] of [index.js] *)

(** The JavaScript file of the repository tells the keys apart by
    [event.keyCode]; the rest of its [changeDirection] is that of
    [script.ts]. *)
Definition keyCode_of (d : Direction) : Z :=
  match d with
  | DLeft => 37
  | DUp => 38
  | DRight => 39
  | DDown => 40
  end.

Definition changeDirection_js (keyPressed : Z) (s : State) : State :=
  let LEFT := 37 in
  let UP := 38 in
  let RIGHT := 39 in
  let DOWN := 40 in
  let goingLeft := xVelocity s =? - unitSize in
  let goingUp := yVelocity s =? - unitSize in
  let goingRight := xVelocity s =? unitSize in
  let goingDown := yVelocity s =? unitSize in
  if (keyPressed =? LEFT) && negb goingRight
  then set_velocity (- unitSize) 0 s
  else if (keyPressed =? UP) && negb goingDown
  then set_velocity 0 (- unitSize) s
  else if (keyPressed =? RIGHT) && negb goingLeft
  then set_velocity unitSize 0 s
  else if (keyPressed =? DOWN) && negb goingUp
  then set_velocity 0 unitSize s
  else s.

(** ** The page: canvas, score text and timers *)

(** The script with everything it writes outside its own variables: the
    calls it makes on the 2D context of the canvas, the text of the score
    element, and the callbacks it has handed to [setTimeout] that have not
    run yet.  The functions bear the names they have in the script; those
    that only touch the variables are the ones above, lifted. *)
Module Browser.

(** A call that paints, with the styles in force when it is made. *)
Inductive DrawCall : Type :=
| fillRect (style : string) (left top width height : Z)
| strokeRect (style : string) (left top width height : Z)
| fillText (fontUsed style align text : string) (left top : Q).

(** [gameContext]: the properties the script assigns and, oldest first, the
    calls it has made. *)
Record Context2D : Type := mkContext {
  fillStyle   : string;
  strokeStyle : string;
  font        : string;
  textAlign   : string;
  painted     : list DrawCall
}.

Definition set_fillStyle (v : string) (c : Context2D) : Context2D :=
  mkContext v (strokeStyle c) (font c) (textAlign c) (painted c).

Definition set_strokeStyle (v : string) (c : Context2D) : Context2D :=
  mkContext (fillStyle c) v (font c) (textAlign c) (painted c).

Definition set_font (v : string) (c : Context2D) : Context2D :=
  mkContext (fillStyle c) (strokeStyle c) v (textAlign c) (painted c).

Definition set_textAlign (v : string) (c : Context2D) : Context2D :=
  mkContext (fillStyle c) (strokeStyle c) (font c) v (painted c).

Definition paint (d : DrawCall) (c : Context2D) : Context2D :=
  mkContext (fillStyle c) (strokeStyle c) (font c) (textAlign c)
            (painted c ++ [d]).

Definition ctx_fillRect (left top width height : Z) (c : Context2D) : Context2D :=
  paint (fillRect (fillStyle c) left top width height) c.

Definition ctx_strokeRect (left top width height : Z) (c : Context2D) : Context2D :=
  paint (strokeRect (strokeStyle c) left top width height) c.

Definition ctx_fillText (text : string) (left top : Q) (c : Context2D) : Context2D :=
  paint (fillText (font c) (fillStyle c) (textAlign c) text left top) c.

(** [game]: the variables of the script; [scoreText]: the [textContent] of
    the score element; [pending]: how many callbacks [setTimeout] holds. *)
Record Page : Type := mkPage {
  game        : State;
  gameContext : Context2D;
  scoreText   : string;
  pending     : nat
}.

Definition set_game (g : State) (p : Page) : Page :=
  mkPage g (gameContext p) (scoreText p) (pending p).

Definition set_gameContext (c : Context2D) (p : Page) : Page :=
  mkPage (game p) c (scoreText p) (pending p).

Definition set_scoreText (t : string) (p : Page) : Page :=
  mkPage (game p) (gameContext p) t (pending p).

Definition set_pending (n : nat) (p : Page) : Page :=
  mkPage (game p) (gameContext p) (scoreText p) n.

(** [n.toString()] for an integer [n]. *)
Definition toString (n : Z) : string := NilZero.string_of_int (Z.to_int n).

Definition boardBackground : string := "white".
Definition snakeColor : string := "lightgreen".
Definition snakeBorder : string := "black".
Definition foodColor : string := "red".

Section Board.

Variables gameWidth gameHeight : Z.

Definition clearBoard (p : Page) : Page :=
  let c := set_fillStyle boardBackground (gameContext p) in
  set_gameContext (ctx_fillRect 0 0 gameWidth gameHeight c) p.

Definition createFood (r1 r2 : Q) (p : Page) : Page :=
  set_game (createFood gameWidth r1 r2 (game p)) p.

(** A [fillRect] with an [undefined] argument paints nothing. *)
Definition drawFood (p : Page) : Page :=
  let c := set_fillStyle foodColor (gameContext p) in
  match foodX (game p), foodY (game p) with
  | Some fx, Some fy => set_gameContext (ctx_fillRect fx fy unitSize unitSize c) p
  | _, _ => set_gameContext c p
  end.

Definition displayGameOver (p : Page) : Page :=
  let c := set_font "50px MV Boli" (gameContext p) in
  let c := set_fillStyle "black" c in
  let c := set_textAlign "center" c in
  let c := ctx_fillText "GAME OVER!"
             (inject_Z gameWidth / 2) (inject_Z gameHeight / 2) c in
  set_game (displayGameOver (game p)) (set_gameContext c p).

(** [setTimeout] adds one callback to those waiting. *)
Definition nextTick (p : Page) : Page :=
  if running (game p)
  then set_pending (S (pending p)) p
  else displayGameOver p.

Definition gameStart (r1 r2 : Q) (p : Page) : Page :=
  let p := set_game (set_running true (game p)) p in
  let p := set_scoreText (toString (score (game p))) p in
  let p := createFood r1 r2 p in
  let p := drawFood p in
  nextTick p.

Definition moveSnake (r1 r2 : Q) (p : Page) : option Page :=
  match snake (game p) with
  | [] => None
  | s0 :: _ =>
      let headOfSnake :=
        mkSegment (x s0 + xVelocity (game p)) (y s0 + yVelocity (game p)) in
      let p1 := set_game (set_snake (headOfSnake :: snake (game p)) (game p)) p in
      if strict_eq (x headOfSnake) (foodX (game p1))
         && strict_eq (y headOfSnake) (foodY (game p1))
      then
        let p2 := set_game (set_score (score (game p1) + 1) (game p1)) p1 in
        let p3 := set_scoreText (toString (score (game p2))) p2 in
        Some (createFood r1 r2 p3)
      else
        Some (set_game (set_snake (removelast (snake (game p1))) (game p1)) p1)
  end.

(** One turn of the [forEach] of [drawSnake]. *)
Definition drawPart (c : Context2D) (partOfSnake : Segment) : Context2D :=
  ctx_strokeRect (x partOfSnake) (y partOfSnake) unitSize unitSize
    (ctx_fillRect (x partOfSnake) (y partOfSnake) unitSize unitSize c).

Definition drawSnake (p : Page) : Page :=
  let c := set_fillStyle snakeColor (gameContext p) in
  let c := set_strokeStyle snakeBorder c in
  set_gameContext (fold_left drawPart (snake (game p)) c) p.

Definition changeDirection (keyPressed : string) (p : Page) : Page :=
  set_game (changeDirection keyPressed (game p)) p.

Definition checkGameOver (p : Page) : option Page :=
  do g <- checkGameOver gameWidth gameHeight (game p);
  Some (set_game g p).

Definition resetGame (r1 r2 : Q) (p : Page) : Page :=
  let p := set_game (set_score 0 (game p)) p in
  let p := set_game (set_velocity unitSize 0 (game p)) p in
  let p := set_game (set_snake startSnake (game p)) p in
  gameStart r1 r2 p.

(** The arrow function [nextTick] gives to [setTimeout].  A [TypeError]
    ends it where it is raised and keeps what it has done until then. *)
Definition onTimeout (r1 r2 : Q) (p : Page) : Page :=
  let p1 := drawFood (clearBoard p) in
  match moveSnake r1 r2 p1 with
  | None => p1
  | Some p2 =>
      let p3 := drawSnake p2 in
      match checkGameOver p3 with
      | None => p3
      | Some p4 => nextTick p4
      end
  end.

(** What the browser can make the script do once it is loaded: run one of
    the waiting callbacks, deliver a key, deliver a click on the reset
    button. *)
Inductive Event : Type :=
| Timeout (r1 r2 : Q)
| KeyDown (key : string)
| Click (r1 r2 : Q).

Definition handle (e : Event) (p : Page) : option Page :=
  match e with
  | Timeout r1 r2 =>
      match pending p with
      | O => None
      | S n => Some (onTimeout r1 r2 (set_pending n p))
      end
  | KeyDown key => Some (changeDirection key p)
  | Click r1 r2 => Some (resetGame r1 r2 p)
  end.

(** The page when the script has run to its last line, over a canvas and a
    score element in any condition. *)
Definition load (r1 r2 : Q) (c : Context2D) (t : string) : Page :=
  gameStart r1 r2 (mkPage script_globals c t 0).

Inductive visited : Page -> Prop :=
| visit_load r1 r2 c t : visited (load r1 r2 c t)
| visit_event e p p' : visited p -> handle e p = Some p' -> visited p'.

(** The head is on the board and on no cell of the body. *)
Definition head_clear (g : State) : Prop :=
  match snake g with
  | [] => False
  | s0 :: rest =>
      0 <= x s0 < gameWidth /\ 0 <= y s0 < gameHeight /\
      (forall si, In si rest -> ~ (x si = x s0 /\ y si = y s0))
  end.

(** What one callback paints when the food is at [(fx, fy)] as it starts and
    it leaves the variables as [g]. *)
Definition frame (fx fy : Z) (g : State) : list DrawCall :=
  [ fillRect boardBackground 0 0 gameWidth gameHeight;
    fillRect foodColor fx fy unitSize unitSize ]
  ++ flat_map (fun part =>
                 [ fillRect snakeColor (x part) (y part) unitSize unitSize;
                   strokeRect snakeBorder (x part) (y part) unitSize unitSize ])
              (snake g)
  ++ (if running g then []
      else [ fillText "50px MV Boli" "black" "center" "GAME OVER!"
               (inject_Z gameWidth / 2) (inject_Z gameHeight / 2) ]).

End Board.

End Browser.

(** ** Sample pages on a 500 x 500 board *)

Definition blank : Browser.Context2D :=
  Browser.mkContext "#000000" "#000000" "10px sans-serif" "start" [].

(** The page after loading. *)
Definition loaded_page : Browser.Page := Browser.load 500 500 0 0 blank "0".

(** A click on the reset button with the game running. *)
Definition reset_page : Browser.Page := Browser.resetGame 500 500 0 0 loaded_page.

(** Then the up arrow. *)
Definition turned_page : Browser.Page := Browser.changeDirection "ArrowUp" reset_page.

(** Then one of the two callbacks: the head has left the board by the top,
    the game is over, and one callback is still waiting. *)
Definition after_reset_and_crash : Browser.Page :=
  Browser.onTimeout 500 500 0 0 (Browser.set_pending 1 turned_page).

(** The page once the callback left waiting has run too. *)
Definition late_callback : Browser.Page :=
  Browser.onTimeout 500 500 0 0 (Browser.set_pending 0 after_reset_and_crash).

(** ** Properties *)

Section BoardFacts.

Variables gameWidth gameHeight : Z.

(** *** Field-by-field effect of the small functions *)

Lemma nextTick_fields (s : State) :
  xVelocity (nextTick s) = xVelocity s /\ yVelocity (nextTick s) = yVelocity s /\
  foodX (nextTick s) = foodX s /\ foodY (nextTick s) = foodY s /\
  score (nextTick s) = score s /\ snake (nextTick s) = snake s /\
  running (nextTick s) = running s.
Proof.
  unfold nextTick, displayGameOver.
  destruct (running s) eqn:E; cbn; auto 10.
Qed.

Lemma nextTick_running (s : State) : running s = true -> nextTick s = s.
Proof. unfold nextTick. now intros ->. Qed.

Lemma gameStart_eq (r1 r2 : Q) (s : State) :
  gameStart gameWidth r1 r2 s =
  mkState true (xVelocity s) (yVelocity s)
          (Some (randomFood r1 0 (gameWidth - unitSize)))
          (Some (randomFood r2 0 (gameWidth - unitSize)))
          (score s) (snake s).
Proof. reflexivity. Qed.

(** *** The [for] loop of [checkGameOver] *)

Lemma loop_frame (s0 : Segment) (rest : list Segment) (st : State) :
  let st' := fold_left (hitSegment s0) rest st in
  xVelocity st' = xVelocity st /\ yVelocity st' = yVelocity st /\
  foodX st' = foodX st /\ foodY st' = foodY st /\
  score st' = score st /\ snake st' = snake st.
Proof.
  revert st. induction rest as [|si rest IH]; intro st; cbn.
  - auto 10.
  - specialize (IH (hitSegment s0 st si)). cbn in IH.
    unfold hitSegment in *.
    destruct ((x si =? x s0) && (y si =? y s0)); cbn in *; exact IH.
Qed.

Lemma loop_stays_stopped (s0 : Segment) (rest : list Segment) (st : State) :
  running st = false -> running (fold_left (hitSegment s0) rest st) = false.
Proof.
  revert st. induction rest as [|si rest IH]; intros st H; cbn; auto.
  apply IH. unfold hitSegment.
  destruct ((x si =? x s0) && (y si =? y s0)); auto.
Qed.

Lemma loop_hit (s0 si : Segment) (rest : list Segment) (st : State) :
  In si rest -> x si = x s0 -> y si = y s0 ->
  running (fold_left (hitSegment s0) rest st) = false.
Proof.
  revert st. induction rest as [|sj rest IH]; intros st Hin Hx Hy.
  - destruct Hin.
  - cbn. destruct Hin as [-> | Hin].
    + apply loop_stays_stopped. unfold hitSegment.
      rewrite Hx, Hy, !Z.eqb_refl. reflexivity.
    + now apply IH.
Qed.

Lemma loop_miss (s0 : Segment) (rest : list Segment) (st : State) :
  (forall si, In si rest -> ~ (x si = x s0 /\ y si = y s0)) ->
  fold_left (hitSegment s0) rest st = st.
Proof.
  revert st. induction rest as [|sj rest IH]; intros st H; cbn; auto.
  assert (E : hitSegment s0 st sj = st).
  { unfold hitSegment.
    destruct (x sj =? x s0) eqn:Ex; destruct (y sj =? y s0) eqn:Ey; cbn; auto.
    exfalso. apply (H sj); [now left | split; now apply Z.eqb_eq]. }
  rewrite E. apply IH. intros si Hi. apply H. now right.
Qed.

(** *** [moveSnake] *)

Lemma strict_eq_spec (a : Z) (b : option Z) :
  strict_eq a b = true <-> b = Some a.
Proof.
  destruct b as [v|]; cbn.
  - rewrite Z.eqb_eq. split; [now intros -> | now intros [= ->]].
  - split; discriminate.
Qed.

Lemma ate_spec (h : Segment) (s : State) :
  strict_eq (x h) (foodX s) && strict_eq (y h) (foodY s) = true <->
  foodX s = Some (x h) /\ foodY s = Some (y h).
Proof. now rewrite andb_true_iff, !strict_eq_spec. Qed.

Lemma removelast_keeps_length (a : Segment) (l : list Segment) :
  length (removelast (a :: l)) = length l.
Proof.
  revert a. induction l as [|b l IH]; intro a; [reflexivity|].
  change (removelast (a :: b :: l)) with (a :: removelast (b :: l)).
  cbn [length]. now rewrite IH.
Qed.

Lemma moveSnake_eats (r1 r2 : Q) (s : State) (s0 : Segment) (rest : list Segment) :
  snake s = s0 :: rest ->
  let newHead := mkSegment (x s0 + xVelocity s) (y s0 + yVelocity s) in
  foodX s = Some (x newHead) /\ foodY s = Some (y newHead) ->
  moveSnake gameWidth r1 r2 s =
  Some (createFood gameWidth r1 r2
          (set_score (score s + 1) (set_snake (newHead :: snake s) s))).
Proof.
  intros Hs newHead H. unfold moveSnake. rewrite Hs. fold newHead.
  apply (ate_spec newHead (set_snake (newHead :: s0 :: rest) s)) in H.
  now rewrite H.
Qed.

Lemma moveSnake_misses (r1 r2 : Q) (s : State) (s0 : Segment) (rest : list Segment) :
  snake s = s0 :: rest ->
  let newHead := mkSegment (x s0 + xVelocity s) (y s0 + yVelocity s) in
  ~ (foodX s = Some (x newHead) /\ foodY s = Some (y newHead)) ->
  moveSnake gameWidth r1 r2 s =
  Some (set_snake (newHead :: removelast (snake s)) s).
Proof.
  intros Hs newHead N. unfold moveSnake. rewrite Hs. fold newHead.
  destruct (strict_eq (x newHead) (foodX (set_snake (newHead :: s0 :: rest) s))
            && strict_eq (y newHead) (foodY (set_snake (newHead :: s0 :: rest) s)))
    eqn:E.
  - apply ate_spec in E. destruct (N E).
  - reflexivity.
Qed.

(** C2. In a Running state with at least one segment, [moveSnake] returns,
    and the snake it leaves starts with the old head moved by the velocity.
    When that new head is on the food, the score goes up by exactly 1, the
    food is the one [createFood] draws, and the snake is the new head in
    front of the whole old snake (one segment longer).  Otherwise the last
    segment is dropped: the snake is the new head in front of the old snake
    without its tail, of the same length as before, and the score and the
    food are unchanged. *)
Theorem moveSnake_step (r1 r2 : Q) (s : State) (s0 : Segment) (rest : list Segment) :
  running s = true ->
  snake s = s0 :: rest ->
  let newHead := mkSegment (x s0 + xVelocity s) (y s0 + yVelocity s) in
  let onFood := foodX s = Some (x newHead) /\ foodY s = Some (y newHead) in
  exists s', moveSnake gameWidth r1 r2 s = Some s' /\
    hd_error (snake s') = Some newHead /\
    running s' = true /\ velocity s' = velocity s /\
    (onFood ->
       score s' = score s + 1 /\
       food s' = food (createFood gameWidth r1 r2 s) /\
       snake s' = newHead :: snake s /\
       length (snake s') = S (length (snake s))) /\
    (~ onFood ->
       snake s' = newHead :: removelast (snake s) /\
       length (snake s') = length (snake s) /\
       score s' = score s /\
       food s' = food s).
Proof.
  intros Hrun Hs newHead onFood. unfold moveSnake. rewrite Hs.
  fold newHead.
  destruct (strict_eq (x newHead) (foodX (set_snake (newHead :: s0 :: rest) s))
            && strict_eq (y newHead) (foodY (set_snake (newHead :: s0 :: rest) s)))
    eqn:E.
  - apply ate_spec in E. cbn in E.
    eexists. split; [reflexivity|]. cbn.
    split; [reflexivity|]. split; [exact Hrun|]. split; [reflexivity|].
    split; [intros _; auto | intro N; destruct (N E)].
  - assert (N : ~ onFood).
    { intro H. apply (proj2 (ate_spec newHead (set_snake (newHead :: s0 :: rest) s))) in H.
      rewrite H in E. discriminate. }
    eexists. split; [reflexivity|].
    change (removelast (snake (set_snake (newHead :: s0 :: rest) s)))
      with (newHead :: removelast (s0 :: rest)).
    cbn [snake set_snake running xVelocity yVelocity score foodX foodY velocity food hd_error].
    split; [reflexivity|]. split; [exact Hrun|]. split; [reflexivity|].
    split; [intro H; destruct (N H) | intros _].
    cbn [length]. rewrite removelast_keeps_length. auto.
Qed.

(** *** [checkGameOver] *)

(** C4. When the head of the snake is outside the board (x < 0, x >= width,
    y < 0 or y >= height), [checkGameOver] returns with the running flag
    false. *)
Theorem checkGameOver_wall (s : State) (s0 : Segment) (rest : list Segment) :
  snake s = s0 :: rest ->
  x s0 < 0 \/ x s0 >= gameWidth \/ y s0 < 0 \/ y s0 >= gameHeight ->
  exists s', checkGameOver gameWidth gameHeight s = Some s' /\ running s' = false.
Proof.
  intros Hs Hout. unfold checkGameOver. rewrite Hs.
  eexists. split; [reflexivity|].
  apply loop_stays_stopped.
  destruct (x s0 <? 0) eqn:E1; [reflexivity|].
  destruct (x s0 >=? gameWidth) eqn:E2; [reflexivity|].
  destruct (y s0 <? 0) eqn:E3; [reflexivity|].
  destruct (y s0 >=? gameHeight) eqn:E4; [reflexivity|].
  apply Z.ltb_ge in E1, E3.
  rewrite Z.geb_leb in E2, E4. apply Z.leb_gt in E2, E4. lia.
Qed.

(** C5. When some segment of index >= 1 has the coordinates of the head,
    [checkGameOver] returns with the running flag false. *)
Theorem checkGameOver_self (s : State) (s0 si : Segment) (rest : list Segment) :
  snake s = s0 :: rest ->
  In si rest -> x si = x s0 -> y si = y s0 ->
  exists s', checkGameOver gameWidth gameHeight s = Some s' /\ running s' = false.
Proof.
  intros Hs Hin Hx Hy. unfold checkGameOver. rewrite Hs.
  eexists. split; [reflexivity|].
  now apply loop_hit with (si := si).
Qed.

(** C9. [checkGameOver] writes nothing but the running flag: in every state
    it either returns a state with the same snake, velocity, food and score,
    or it raises, which happens only on an empty snake and before any write. *)
Theorem checkGameOver_frame (s : State) :
  match checkGameOver gameWidth gameHeight s with
  | Some s' =>
      snake s' = snake s /\ velocity s' = velocity s /\
      food s' = food s /\ score s' = score s
  | None => snake s = []
  end.
Proof.
  unfold checkGameOver. destruct (snake s) as [|s0 rest] eqn:Hs; [reflexivity|].
  match goal with |- context [fold_left _ _ ?st] => set (s1 := st) end.
  destruct (loop_frame s0 rest s1) as (Hvx & Hvy & Hfx & Hfy & Hsc & Hsn).
  assert (F : xVelocity s1 = xVelocity s /\ yVelocity s1 = yVelocity s /\
              foodX s1 = foodX s /\ foodY s1 = foodY s /\
              score s1 = score s /\ snake s1 = snake s).
  { subst s1.
    destruct (x s0 <? 0); [cbn; auto 10|].
    destruct (x s0 >=? gameWidth); [cbn; auto 10|].
    destruct (y s0 <? 0); [cbn; auto 10|].
    destruct (y s0 >=? gameHeight); cbn; auto 10. }
  destruct F as (Fvx & Fvy & Ffx & Ffy & Fsc & Fsn).
  unfold velocity, food.
  rewrite Hvx, Hvy, Hfx, Hfy, Hsc, Hsn, Fvx, Fvy, Ffx, Ffy, Fsc, Fsn, Hs.
  auto.
Qed.

(** *** [changeDirection] *)

(** C3. With the velocity one of the four unit steps, an arrow key that
    does not ask for the exact reverse of the velocity sets the velocity to
    the unit step of that key, and one that asks for the exact reverse leaves
    the velocity as it is. *)
Theorem changeDirection_rule (d : Direction) (s : State) :
  unit_step s ->
  (~ reverses d s -> velocity (changeDirection (key_of d) s) = step_of d) /\
  (reverses d s -> velocity (changeDirection (key_of d) s) = velocity s).
Proof.
  unfold unit_step, reverses, velocity.
  intros [H | [H | [H | H]]]; injection H as Hx Hy;
    destruct d; unfold changeDirection; rewrite Hx, Hy; cbn;
    (split; intro R;
     [ try reflexivity; exfalso; apply R; reflexivity
     | try reflexivity; try discriminate R; rewrite Hx, Hy; reflexivity ]).
Qed.

(** The arrow keys are the only keys that do anything. *)
Lemma changeDirection_other_key (k : string) (s : State) :
  (forall d, k <> key_of d) -> changeDirection k s = s.
Proof.
  intro H. unfold changeDirection.
  destruct (String.eqb_spec k "ArrowLeft") as [E|_]; [destruct (H DLeft E)|].
  destruct (String.eqb_spec k "ArrowUp") as [E|_]; [destruct (H DUp E)|].
  destruct (String.eqb_spec k "ArrowRight") as [E|_]; [destruct (H DRight E)|].
  destruct (String.eqb_spec k "ArrowDown") as [E|_]; [destruct (H DDown E)|].
  reflexivity.
Qed.

Lemma changeDirection_fields (k : string) (s : State) :
  running (changeDirection k s) = running s /\
  food (changeDirection k s) = food s /\
  score (changeDirection k s) = score s /\
  snake (changeDirection k s) = snake s.
Proof.
  unfold changeDirection.
  repeat match goal with
         | |- context [if ?c then _ else _] => destruct c
         end; cbn; auto.
Qed.

Lemma changeDirection_unit_step (k : string) (s : State) :
  unit_step s -> unit_step (changeDirection k s).
Proof.
  intro H. unfold changeDirection.
  repeat match goal with
         | |- context [if ?c then _ else _] => destruct c
         end; auto; unfold unit_step, velocity; cbn; auto.
Qed.

(** *** [resetGame] *)

(** C8. From every state, [resetGame] (which ends by calling [gameStart])
    leaves score 0, velocity (+unitSize, 0), the five start segments, the
    food [createFood] draws and the running flag true: the state the script
    is in after loading, for the same two draws. *)
Theorem resetGame_initial (r1 r2 : Q) (s : State) :
  let s' := resetGame gameWidth r1 r2 s in
  score s' = 0 /\
  velocity s' = (unitSize, 0) /\
  snake s' = [ mkSegment (4 * unitSize) 0; mkSegment (3 * unitSize) 0;
               mkSegment (2 * unitSize) 0; mkSegment unitSize 0;
               mkSegment 0 0 ] /\
  food s' = food (createFood gameWidth r1 r2 s) /\
  running s' = true /\
  s' = gameStart gameWidth r1 r2 script_globals.
Proof. cbv zeta. repeat split. Qed.

(** *** Invariants of the reachable states *)

Lemma moveSnake_fields (r1 r2 : Q) (s s' : State) :
  moveSnake gameWidth r1 r2 s = Some s' ->
  running s' = running s /\ velocity s' = velocity s /\
  (1 <= length (snake s'))%nat.
Proof.
  unfold moveSnake. destruct (snake s) as [|s0 rest]; [discriminate|].
  match goal with
  | |- context [if ?c then _ else _] => destruct c
  end; intros [= <-].
  - cbn. repeat split. lia.
  - change (removelast (snake (set_snake (?a :: s0 :: rest) s)))
      with (a :: removelast (s0 :: rest)).
    cbn [running velocity xVelocity yVelocity snake set_snake length].
    repeat split. lia.
Qed.

Lemma checkGameOver_fields (s s' : State) :
  checkGameOver gameWidth gameHeight s = Some s' ->
  snake s' = snake s /\ velocity s' = velocity s /\
  food s' = food s /\ score s' = score s.
Proof.
  unfold checkGameOver. destruct (snake s) as [|s0 rest] eqn:Hs; [discriminate|].
  intros [= <-].
  match goal with |- context [fold_left _ _ ?st] => set (s1 := st) end.
  destruct (loop_frame s0 rest s1) as (Hvx & Hvy & Hfx & Hfy & Hsc & Hsn).
  unfold velocity, food. rewrite Hvx, Hvy, Hfx, Hfy, Hsc, Hsn. subst s1.
  repeat match goal with
         | |- context [if ?c then _ else _] => destruct c
         end; cbn; auto.
Qed.

Lemma run_op_snake (o : Op) (s s' : State) :
  (1 <= length (snake s))%nat ->
  run_op gameWidth gameHeight o s = Some s' ->
  (1 <= length (snake s'))%nat.
Proof.
  intros Hs Ho. destruct o as [r1 r2| | |k|r1 r2]; cbn in Ho.
  - now apply moveSnake_fields in Ho.
  - apply checkGameOver_fields in Ho. destruct Ho as (F & _). now rewrite F.
  - injection Ho as <-.
    destruct (nextTick_fields s) as (_ & _ & _ & _ & _ & F & _). now rewrite F.
  - injection Ho as <-.
    destruct (changeDirection_fields k s) as (_ & _ & _ & F). now rewrite F.
  - injection Ho as <-. cbn. lia.
Qed.

Lemma run_op_unit_step (o : Op) (s s' : State) :
  unit_step s ->
  run_op gameWidth gameHeight o s = Some s' ->
  unit_step s'.
Proof.
  intros Hs Ho. destruct o as [r1 r2| | |k|r1 r2]; cbn in Ho.
  - apply moveSnake_fields in Ho. destruct Ho as (_ & F & _).
    unfold unit_step. now rewrite F.
  - apply checkGameOver_fields in Ho. destruct Ho as (_ & F & _).
    unfold unit_step. now rewrite F.
  - injection Ho as <-.
    destruct (nextTick_fields s) as (Fx & Fy & _).
    unfold unit_step, velocity. now rewrite Fx, Fy.
  - injection Ho as <-. now apply changeDirection_unit_step.
  - injection Ho as <-. left. reflexivity.
Qed.

Lemma unit_step_moves (s : State) : unit_step s -> velocity s <> (0, 0).
Proof.
  unfold unit_step.
  intros [H | [H | [H | H]]]; rewrite H; discriminate.
Qed.

Lemma reachable_snake (s : State) :
  reachable gameWidth gameHeight s -> (1 <= length (snake s))%nat.
Proof.
  induction 1 as [r1 r2 | o s s' _ IH Ho].
  - cbn. lia.
  - exact (run_op_snake o s s' IH Ho).
Qed.

(** No function raises in a reachable state. *)
Lemma reachable_total (o : Op) (s : State) :
  reachable gameWidth gameHeight s ->
  exists s', run_op gameWidth gameHeight o s = Some s'.
Proof.
  intro H. apply reachable_snake in H.
  destruct o as [r1 r2| | |k|r1 r2]; cbn; eauto;
    [unfold moveSnake | unfold checkGameOver];
    destruct (snake s) as [|s0 rest]; cbn in H; try lia.
  - match goal with
    | |- context [if ?c then _ else _] => destruct c
    end; eauto.
  - eauto.
Qed.

(** C6. The snake the script starts with has 5 segments, every function
    that can run turns a snake of at least one segment into a snake of at
    least one segment, and so the snake of every reachable state has at
    least one segment. *)
Theorem snake_never_empty :
  (forall r1 r2,
     length (snake (gameStart gameWidth r1 r2 script_globals)) = 5%nat) /\
  (forall o s s',
     (1 <= length (snake s))%nat ->
     run_op gameWidth gameHeight o s = Some s' ->
     (1 <= length (snake s'))%nat) /\
  (forall s,
     reachable gameWidth gameHeight s -> (1 <= length (snake s))%nat).
Proof.
  split; [reflexivity|]. split; [exact run_op_snake | exact reachable_snake].
Qed.

(** C7. The script starts with velocity (+unitSize, 0), every function that
    can run turns a unit-step velocity into a unit-step velocity, and so the
    velocity of every reachable state is one of (+u,0), (-u,0), (0,+u),
    (0,-u) and is not (0,0). *)
Theorem velocity_always_unit_step :
  (forall r1 r2,
     velocity (gameStart gameWidth r1 r2 script_globals) = (unitSize, 0)) /\
  (forall o s s',
     unit_step s ->
     run_op gameWidth gameHeight o s = Some s' ->
     unit_step s') /\
  (forall s,
     reachable gameWidth gameHeight s ->
     unit_step s /\ velocity s <> (0, 0)).
Proof.
  split; [reflexivity|]. split; [exact run_op_unit_step|].
  intros s H.
  assert (U : unit_step s).
  { induction H as [r1 r2 | o s s' _ IH Ho].
    - left. reflexivity.
    - exact (run_op_unit_step o s s' IH Ho). }
  split; [exact U | now apply unit_step_moves].
Qed.

(** *** One whole tick *)

(** C10. In a Running state where the cell one velocity step ahead of the
    head is the cell of the last segment, is on the board, is not the food
    and is the cell of no other segment, the timer callback ([moveSnake],
    [checkGameOver], [nextTick]) returns with the running flag still true:
    the last segment has been popped before the loop of [checkGameOver]
    looks for the head among the others. *)
Theorem tail_chase_is_safe (r1 r2 : Q) (s : State) (s0 tailSeg : Segment)
    (front : list Segment) :
  running s = true ->
  hd_error (snake s) = Some s0 ->
  snake s = front ++ [tailSeg] ->
  let ahead := mkSegment (x s0 + xVelocity s) (y s0 + yVelocity s) in
  x tailSeg = x ahead -> y tailSeg = y ahead ->
  0 <= x ahead < gameWidth -> 0 <= y ahead < gameHeight ->
  ~ (foodX s = Some (x ahead) /\ foodY s = Some (y ahead)) ->
  (forall si, In si front -> ~ (x si = x ahead /\ y si = y ahead)) ->
  exists s', tick gameWidth gameHeight r1 r2 s = Some s' /\
    running s' = true /\ snake s' = ahead :: front.
Proof.
  intros Hrun Hhd Hs ahead Htx Hty Hbx Hby Hfood Hfree.
  destruct (snake s) as [|h rest] eqn:Esn; [discriminate|].
  injection Hhd as ->.
  unfold tick.
  rewrite (moveSnake_misses r1 r2 s s0 rest Esn Hfood).
  fold ahead. rewrite Esn, Hs, removelast_last.
  cbn [bind]. unfold checkGameOver. cbn [snake set_snake].
  assert (B1 : (x ahead <? 0) = false) by (apply Z.ltb_ge; lia).
  assert (B2 : (x ahead >=? gameWidth) = false)
    by (rewrite Z.geb_leb; apply Z.leb_gt; lia).
  assert (B3 : (y ahead <? 0) = false) by (apply Z.ltb_ge; lia).
  assert (B4 : (y ahead >=? gameHeight) = false)
    by (rewrite Z.geb_leb; apply Z.leb_gt; lia).
  rewrite B1, B2, B3, B4, (loop_miss ahead front _ Hfree).
  cbn [bind]. rewrite nextTick_running by exact Hrun.
  eexists. split; [reflexivity|]. split; [exact Hrun | reflexivity].
Qed.

(** *** [createFood] *)

Lemma Math_round_between (q : Q) (k : Z) :
  (0 <= q)%Q -> (q <= inject_Z k)%Q -> 0 <= Math_round q <= k.
Proof.
  intros H0 Hk. unfold Math_round. split.
  - rewrite <- (Qfloor_Z 0). apply Qfloor_resp_le.
    change (inject_Z 0) with 0%Q. lra.
  - apply Z.lt_succ_r. rewrite Zlt_Qlt.
    eapply Qle_lt_trans; [apply Qfloor_le|].
    unfold Z.succ. rewrite inject_Z_plus.
    change (inject_Z 1) with 1%Q. lra.
Qed.

(** A draw in [0,1] over a range of [k] cells gives a cell of that range. *)
Lemma randomFood_cell (rnd : Q) (k : Z) :
  (0 <= rnd)%Q -> (rnd <= 1)%Q -> 0 <= k ->
  exists m, randomFood rnd 0 (k * unitSize) = m * unitSize /\ 0 <= m <= k.
Proof.
  intros H0 H1 Hk. unfold randomFood. eexists. split; [reflexivity|].
  assert (E : ((rnd * inject_Z (k * unitSize - 0) + inject_Z 0) / inject_Z unitSize
               == rnd * inject_Z k)%Q).
  { rewrite Z.sub_0_r, inject_Z_mult. change (inject_Z 0) with 0%Q.
    change (inject_Z unitSize) with 25%Q. field. }
  assert (K : (0 <= inject_Z k)%Q) by (change 0%Q with (inject_Z 0); now rewrite <- Zle_Qle).
  apply Math_round_between; rewrite E.
  - now apply Qmult_le_0_compat.
  - rewrite <- (Qmult_1_l (inject_Z k)) at 2.
    apply Qmult_le_compat_r; assumption.
Qed.

(** What [createFood] does guarantee: both coordinates are multiples of
    [unitSize] between 0 and [gameWidth - unitSize]; the height of the board
    plays no part. *)
Lemma createFood_within_width (r1 r2 : Q) (s : State) (w : Z) :
  gameWidth = w * unitSize -> 0 < w ->
  (0 <= r1)%Q -> (r1 <= 1)%Q -> (0 <= r2)%Q -> (r2 <= 1)%Q ->
  exists fx fy,
    food (createFood gameWidth r1 r2 s) = (Some fx, Some fy) /\
    on_grid fx /\ on_grid fy /\
    0 <= fx <= gameWidth - unitSize /\ 0 <= fy <= gameWidth - unitSize.
Proof.
  intros Hw Hpos A1 B1 A2 B2.
  assert (R : gameWidth - unitSize = (w - 1) * unitSize) by (rewrite Hw; ring).
  unfold createFood, food. cbn. rewrite R.
  destruct (randomFood_cell r1 (w - 1) A1 B1) as (m1 & E1 & M1); [lia|].
  destruct (randomFood_cell r2 (w - 1) A2 B2) as (m2 & E2 & M2); [lia|].
  rewrite E1, E2. exists (m1 * unitSize), (m2 * unitSize).
  split; [reflexivity|].
  split; [now exists m1|]. split; [now exists m2|].
  clear - M1 M2. change unitSize with 25. lia.
Qed.

(** X16. On a board at least as high as it is wide the food is on the board. *)
Lemma createFood_on_board_if_tall (r1 r2 : Q) (s : State) (w : Z) :
  gameWidth = w * unitSize -> 0 < w -> gameWidth <= gameHeight ->
  (0 <= r1)%Q -> (r1 <= 1)%Q -> (0 <= r2)%Q -> (r2 <= 1)%Q ->
  food_on_board gameWidth gameHeight (createFood gameWidth r1 r2 s).
Proof.
  intros Hw Hpos Htall A1 B1 A2 B2.
  destruct (createFood_within_width r1 r2 s w Hw Hpos A1 B1 A2 B2)
    as (fx & fy & E & Gx & Gy & Bx & By).
  injection E as Ex Ey.
  exists fx, fy.
  split; [cbn; now rewrite Ex|]. split; [cbn; now rewrite Ey|].
  split; [exact Gx|]. split; [exact Gy|].
  split; lia.
Qed.

End BoardFacts.

(** ** The scenarios of the game on a 500 x 500 board *)

Example loaded_state :
  loaded = mkState true 25 0 (Some 0) (Some 350) 0
             [mkSegment 100 0; mkSegment 75 0; mkSegment 50 0;
              mkSegment 25 0; mkSegment 0 0].
Proof. reflexivity. Qed.

Example tick_plain :
  tick 500 500 0 0 loaded =
  Some (mkState true 25 0 (Some 0) (Some 350) 0
          [mkSegment 125 0; mkSegment 100 0; mkSegment 75 0;
           mkSegment 50 0; mkSegment 25 0]).
Proof. reflexivity. Qed.

Example tick_eating :
  tick 500 500 (1 # 2) (1 # 4) loaded_fed =
  Some (mkState true 25 0 (Some 250) (Some 125) 1
          [mkSegment 125 0; mkSegment 100 0; mkSegment 75 0;
           mkSegment 50 0; mkSegment 25 0; mkSegment 0 0]).
Proof. reflexivity. Qed.

Example tick_into_wall :
  tick 500 500 0 0 (set_snake [mkSegment 475 0; mkSegment 450 0] loaded) =
  Some (mkState false 25 0 (Some 0) (Some 350) 0
          [mkSegment 500 0; mkSegment 475 0]).
Proof. reflexivity. Qed.

(** A velocity outside the data model, which no reachable state has: the
    test [goingRight] of [changeDirection] looks at [xVelocity] alone. *)
Example changeDirection_diagonal :
  velocity (changeDirection "ArrowLeft" (set_velocity 25 25 loaded)) = (25, 25).
Proof. reflexivity. Qed.

(** C1. On a board 500 wide and 250 high, both multiples of [unitSize], the
    draws 0 and 3/4 make [createFood] set [foodY] to 350, below the bottom
    edge of the board: the second call of [randomFood] is given the width of
    the board where the height is due. *)
Theorem createFood_foodY_off_board :
  let s' := createFood 500 0 (3 # 4) script_globals in
  on_grid 500 /\ on_grid 250 /\
  food s' = (Some 0, Some 350) /\
  ~ food_on_board 500 250 s'.
Proof.
  cbv zeta. split; [now exists 20|]. split; [now exists 10|].
  split; [reflexivity|].
  intros (fx & fy & _ & Ey & _ & _ & _ & Hy).
  vm_compute in Ey. injection Ey as <-.
  change unitSize with 25 in Hy. lia.
Qed.

(** *** The theorems at work on these states *)

Lemma moveSnake_step_witness :
  exists s', moveSnake 500 0 0 loaded = Some s' /\
             hd_error (snake s') = Some (mkSegment 125 0) /\
             length (snake s') = 5%nat.
Proof.
  destruct (moveSnake_step 500 0 0 loaded (mkSegment 100 0)
              [mkSegment 75 0; mkSegment 50 0; mkSegment 25 0; mkSegment 0 0]
              eq_refl eq_refl)
    as (s' & Hm & Hh & _ & _ & _ & Hmiss).
  exists s'. split; [exact Hm|]. split; [exact Hh|].
  apply Hmiss. intros [H _]. discriminate H.
Defined.

Lemma changeDirection_rule_witness :
  velocity (changeDirection "ArrowUp" loaded) = (0, -25) /\
  velocity (changeDirection "ArrowLeft" loaded) = (25, 0).
Proof.
  split.
  - apply (changeDirection_rule DUp loaded); [left; reflexivity|].
    intro H. discriminate H.
  - apply (changeDirection_rule DLeft loaded); [left; reflexivity|].
    reflexivity.
Defined.

Lemma checkGameOver_wall_witness :
  exists s',
    checkGameOver 500 500 (set_snake [mkSegment 500 0; mkSegment 475 0] loaded)
    = Some s' /\ running s' = false.
Proof.
  apply (checkGameOver_wall 500 500 _ (mkSegment 500 0) [mkSegment 475 0]).
  - reflexivity.
  - right. left. cbn. lia.
Defined.

Lemma checkGameOver_self_witness :
  exists s',
    checkGameOver 500 500
      (set_snake [mkSegment 25 0; mkSegment 25 25; mkSegment 0 25;
                  mkSegment 0 0; mkSegment 25 0] loaded)
    = Some s' /\ running s' = false.
Proof.
  apply (checkGameOver_self 500 500 _ (mkSegment 25 0) (mkSegment 25 0)
           [mkSegment 25 25; mkSegment 0 25; mkSegment 0 0; mkSegment 25 0]).
  - reflexivity.
  - cbn. auto.
  - reflexivity.
  - reflexivity.
Defined.

Lemma loaded_reachable : reachable 500 500 loaded.
Proof. apply reach_load. Defined.

Lemma turned_reachable :
  reachable 500 500 (changeDirection "ArrowDown" loaded).
Proof.
  apply (reach_op 500 500 (OpKey "ArrowDown") loaded);
    [exact loaded_reachable | reflexivity].
Defined.

Lemma snake_never_empty_witness :
  (1 <= length (snake (changeDirection "ArrowDown" loaded)))%nat.
Proof.
  apply (proj2 (proj2 (snake_never_empty 500 500))). exact turned_reachable.
Defined.

Lemma velocity_always_unit_step_witness :
  unit_step (changeDirection "ArrowDown" loaded) /\
  velocity (changeDirection "ArrowDown" loaded) <> (0, 0).
Proof.
  apply (proj2 (proj2 (velocity_always_unit_step 500 500))).
  exact turned_reachable.
Defined.

Lemma tail_chase_is_safe_witness :
  exists s', tick 500 500 0 0 curled = Some s' /\
    running s' = true /\
    snake s' = [mkSegment 0 25; mkSegment 0 0; mkSegment 25 0; mkSegment 25 25].
Proof.
  apply (tail_chase_is_safe 500 500 0 0 curled (mkSegment 0 0) (mkSegment 0 25)
           [mkSegment 0 0; mkSegment 25 0; mkSegment 25 25]);
    try reflexivity.
  - change (0 <= 0 < 500). lia.
  - change (0 <= 25 < 500). lia.
  - intros [_ H]. discriminate H.
  - intros si Hin [Hx Hy]. cbn in Hin, Hx, Hy.
    destruct Hin as [<- | [<- | [<- | []]]]; cbn in Hx, Hy; discriminate.
Defined.

(** ** More of the game: what the functions do beyond the scenarios *)

Section GameFacts.

Variables gameWidth gameHeight : Z.

(** *** The verdict of [checkGameOver] *)

Lemma loop_running_iff (s0 : Segment) (rest : list Segment) (st : State) :
  running (fold_left (hitSegment s0) rest st) = true <->
  running st = true /\
  (forall si, In si rest -> ~ (x si = x s0 /\ y si = y s0)).
Proof.
  split.
  - intro H. split.
    + destruct (running st) eqn:E; [reflexivity|].
      rewrite (loop_stays_stopped s0 rest st E) in H. discriminate.
    + intros si Hin [Hx Hy].
      rewrite (loop_hit s0 si rest st Hin Hx Hy) in H. discriminate.
  - intros [Hrun Hfree]. now rewrite loop_miss.
Qed.

(** X1. The game is still running after [checkGameOver] exactly when it was
    running before, the head is on the board and no other segment lies on
    the cell of the head. *)
Theorem checkGameOver_verdict (s : State) (s0 : Segment) (rest : list Segment) :
  snake s = s0 :: rest ->
  exists s', checkGameOver gameWidth gameHeight s = Some s' /\
    (running s' = true <->
     running s = true /\
     0 <= x s0 < gameWidth /\ 0 <= y s0 < gameHeight /\
     (forall si, In si rest -> ~ (x si = x s0 /\ y si = y s0))).
Proof.
  intro Hs. unfold checkGameOver. rewrite Hs.
  eexists. split; [reflexivity|].
  rewrite loop_running_iff.
  destruct (x s0 <? 0) eqn:E1;
    [apply Z.ltb_lt in E1; cbn; split; [intros [H _]; discriminate | lia]|].
  destruct (x s0 >=? gameWidth) eqn:E2;
    [rewrite Z.geb_leb in E2; apply Z.leb_le in E2; cbn;
     split; [intros [H _]; discriminate | lia]|].
  destruct (y s0 <? 0) eqn:E3;
    [apply Z.ltb_lt in E3; cbn; split; [intros [H _]; discriminate | lia]|].
  destruct (y s0 >=? gameHeight) eqn:E4;
    [rewrite Z.geb_leb in E4; apply Z.leb_le in E4; cbn;
     split; [intros [H _]; discriminate | lia]|].
  apply Z.ltb_ge in E1, E3.
  rewrite Z.geb_leb in E2, E4. apply Z.leb_gt in E2, E4.
  split; [intros [H F] | intros (H & _ & _ & F)]; repeat split; auto; lia.
Qed.

(** X2. Only [resetGame] starts the game again: every other function leaves a
    stopped game stopped. *)
Theorem game_over_is_sticky (o : Op) (s s' : State) :
  running s = false ->
  (forall r1 r2, o <> OpReset r1 r2) ->
  run_op gameWidth gameHeight o s = Some s' ->
  running s' = false.
Proof.
  intros Hstop Hop Ho. destruct o as [r1 r2| | |k|r1 r2]; cbn in Ho.
  - apply moveSnake_fields in Ho. destruct Ho as (F & _). now rewrite F.
  - unfold checkGameOver in Ho.
    destruct (snake s) as [|s0 rest]; [discriminate|].
    injection Ho as <-. apply loop_stays_stopped.
    repeat match goal with
           | |- context [if ?c then _ else _] => destruct c
           end; auto.
  - injection Ho as <-.
    destruct (nextTick_fields s) as (_ & _ & _ & _ & _ & _ & F). now rewrite F.
  - injection Ho as <-.
    destruct (changeDirection_fields k s) as (F & _). now rewrite F.
  - destruct (Hop r1 r2 eq_refl).
Qed.

(** *** The score and the length of the snake *)

Lemma moveSnake_growth (r1 r2 : Q) (s s' : State) :
  moveSnake gameWidth r1 r2 s = Some s' ->
  Z.of_nat (length (snake s')) - score s' = Z.of_nat (length (snake s)) - score s /\
  score s <= score s'.
Proof.
  unfold moveSnake. destruct (snake s) as [|s0 rest] eqn:Hs; [discriminate|].
  match goal with
  | |- context [if ?c then _ else _] => destruct c
  end; intros [= <-].
  - cbn [snake score createFood set_food set_score set_snake length]. lia.
  - cbn [snake score set_snake length].
    change (match rest with [] => [] | _ :: _ => s0 :: removelast rest end)
      with (removelast (s0 :: rest)).
    rewrite removelast_keeps_length. lia.
Qed.

(** X3. In every reachable state the snake has 5 segments plus one for each
    point of the score, and the score is not negative. *)
Theorem snake_length_is_score_plus_5 (s : State) :
  reachable gameWidth gameHeight s ->
  Z.of_nat (length (snake s)) = 5 + score s /\ 0 <= score s.
Proof.
  induction 1 as [r1 r2 | o s s' _ IH Ho].
  - split; [reflexivity | cbn; lia].
  - destruct o as [r1 r2| | |k|r1 r2]; cbn in Ho.
    + apply moveSnake_growth in Ho. lia.
    + apply checkGameOver_fields in Ho.
      destruct Ho as (F1 & _ & _ & F2). rewrite F1, F2. exact IH.
    + injection Ho as <-.
      destruct (nextTick_fields s) as (_ & _ & _ & _ & F2 & F1 & _).
      rewrite F1, F2. exact IH.
    + injection Ho as <-.
      destruct (changeDirection_fields k s) as (_ & _ & F2 & F1).
      rewrite F1, F2. exact IH.
    + injection Ho as <-. split; [reflexivity | cbn; lia].
Qed.

(** *** What [moveSnake] leaves behind *)

Lemma moveSnake_cases (r1 r2 : Q) (s : State) (s0 : Segment) (rest : list Segment) :
  snake s = s0 :: rest ->
  let newHead := mkSegment (x s0 + xVelocity s) (y s0 + yVelocity s) in
  exists s', moveSnake gameWidth r1 r2 s = Some s' /\
    running s' = running s /\ velocity s' = velocity s /\
    ((snake s' = newHead :: s0 :: rest /\
      food s' = food (createFood gameWidth r1 r2 s)) \/
     (snake s' = newHead :: removelast (s0 :: rest) /\ food s' = food s)).
Proof.
  intros Hs newHead.
  destruct (strict_eq (x newHead) (foodX s) && strict_eq (y newHead) (foodY s))
    eqn:E.
  - apply ate_spec in E.
    rewrite (moveSnake_eats gameWidth r1 r2 s s0 rest Hs E). fold newHead.
    eexists. split; [reflexivity|]. rewrite Hs. cbn. auto.
  - assert (N : ~ (foodX s = Some (x newHead) /\ foodY s = Some (y newHead))).
    { intro H. apply ate_spec in H. rewrite H in E. discriminate. }
    rewrite (moveSnake_misses gameWidth r1 r2 s s0 rest Hs N). fold newHead.
    eexists. split; [reflexivity|]. rewrite Hs.
    cbn [running velocity xVelocity yVelocity snake food foodX foodY set_snake].
    auto.
Qed.

Lemma Forall_removelast {A : Type} (P : A -> Prop) (l : list A) :
  Forall P l -> Forall P (removelast l).
Proof.
  induction 1 as [|a l Ha Hl IH]; [constructor|].
  destruct l as [|b l]; [constructor|].
  change (removelast (a :: b :: l)) with (a :: removelast (b :: l)).
  now constructor.
Qed.

Lemma chain_removelast (l : list Segment) : chain l -> chain (removelast l).
Proof.
  induction l as [|a l IH]; [auto|].
  destruct l as [|b l]; [auto|].
  intros [Hab Hl].
  change (removelast (a :: b :: l)) with (a :: removelast (b :: l)).
  specialize (IH Hl). destruct l as [|c l]; [exact I|].
  change (removelast (b :: c :: l)) with (b :: removelast (c :: l)) in *.
  split; assumption.
Qed.

Lemma reachable_unit_step (s : State) :
  reachable gameWidth gameHeight s -> unit_step s.
Proof.
  induction 1 as [r1 r2 | o s s' _ IH Ho].
  - left. reflexivity.
  - exact (run_op_unit_step gameWidth gameHeight o s s' IH Ho).
Qed.

Lemma randomFood_on_grid (rnd : Q) (min max : Z) : on_grid (randomFood rnd min max).
Proof. unfold randomFood. eexists. reflexivity. Qed.

(** X4. In every reachable state the food is set, and both its coordinates are
    multiples of [unitSize]. *)
Theorem food_always_on_grid (s : State) :
  reachable gameWidth gameHeight s ->
  exists fx fy, food s = (Some fx, Some fy) /\ on_grid fx /\ on_grid fy.
Proof.
  assert (fresh : forall r1 r2 t, exists fx fy,
            food (createFood gameWidth r1 r2 t) = (Some fx, Some fy) /\
            on_grid fx /\ on_grid fy).
  { intros r1 r2 t. do 2 eexists. split; [reflexivity|].
    split; apply randomFood_on_grid. }
  induction 1 as [r1 r2 | o s s' Hr IH Ho].
  - apply (fresh r1 r2 (set_running true script_globals)).
  - destruct o as [r1 r2| | |k|r1 r2]; cbn in Ho.
    + apply reachable_snake in Hr.
      destruct (snake s) as [|s0 rest] eqn:Hs; [cbn in Hr; lia|].
      destruct (moveSnake_cases r1 r2 s s0 rest Hs)
        as (t & Ht & _ & _ & [[_ F] | [_ F]]);
        rewrite Ht in Ho; injection Ho as <-; rewrite F; [apply fresh | exact IH].
    + apply checkGameOver_fields in Ho. destruct Ho as (_ & _ & F & _).
      now rewrite F.
    + injection Ho as <-.
      destruct (nextTick_fields s) as (_ & _ & Fx & Fy & _).
      unfold food. rewrite Fx, Fy. exact IH.
    + injection Ho as <-.
      destruct (changeDirection_fields k s) as (_ & F & _). now rewrite F.
    + injection Ho as <-. apply fresh.
Qed.

Lemma startSnake_aligned : Forall aligned startSnake.
Proof.
  repeat constructor; cbn;
    try (now exists 0); try (now exists 1); try (now exists 2);
    try (now exists 3); try (now exists 4).
Qed.

Lemma unit_step_on_grid (s : State) :
  unit_step s -> on_grid (xVelocity s) /\ on_grid (yVelocity s).
Proof.
  unfold unit_step, velocity.
  intros [H | [H | [H | H]]]; injection H as -> ->; split;
    try (now exists 0); try (now exists 1); now exists (-1).
Qed.

(** X5. In every reachable state every segment of the snake has both coordinates
    multiples of [unitSize]. *)
Theorem snake_always_on_grid (s : State) :
  reachable gameWidth gameHeight s -> Forall aligned (snake s).
Proof.
  induction 1 as [r1 r2 | o s s' Hr IH Ho].
  - exact startSnake_aligned.
  - destruct o as [r1 r2| | |k|r1 r2]; cbn in Ho.
    + destruct (unit_step_on_grid s (reachable_unit_step s Hr)) as [Vx Vy].
      destruct (snake s) as [|s0 rest] eqn:Hs;
        [apply reachable_snake in Hr; rewrite Hs in Hr; cbn in Hr; lia|].
      assert (A : aligned (mkSegment (x s0 + xVelocity s) (y s0 + yVelocity s))).
      { inversion IH as [|? ? [Ax Ay] _]; subst.
        split; cbn; now apply Z.divide_add_r. }
      destruct (moveSnake_cases r1 r2 s s0 rest Hs)
        as (t & Ht & _ & _ & [[F _] | [F _]]);
        rewrite Ht in Ho; injection Ho as <-; rewrite F; constructor; auto.
      now apply Forall_removelast.
    + apply checkGameOver_fields in Ho. destruct Ho as (F & _). now rewrite F.
    + injection Ho as <-.
      destruct (nextTick_fields s) as (_ & _ & _ & _ & _ & F & _). now rewrite F.
    + injection Ho as <-.
      destruct (changeDirection_fields k s) as (_ & _ & _ & F). now rewrite F.
    + injection Ho as <-. exact startSnake_aligned.
Qed.

Lemma startSnake_chain : chain startSnake.
Proof. cbn. repeat split; left; reflexivity. Qed.

(** X6. In every reachable state each segment of the snake lies on a cell next to
    the cell of the segment behind it. *)
Theorem snake_always_a_chain (s : State) :
  reachable gameWidth gameHeight s -> chain (snake s).
Proof.
  induction 1 as [r1 r2 | o s s' Hr IH Ho].
  - exact startSnake_chain.
  - destruct o as [r1 r2| | |k|r1 r2]; cbn in Ho.
    + pose proof (reachable_unit_step s Hr) as U.
      destruct (snake s) as [|s0 rest] eqn:Hs;
        [apply reachable_snake in Hr; rewrite Hs in Hr; cbn in Hr; lia|].
      assert (C : chain (mkSegment (x s0 + xVelocity s) (y s0 + yVelocity s)
                           :: s0 :: rest)).
      { split; [|exact IH]. unfold neighbours. cbn [x y].
        replace (x s0 + xVelocity s - x s0) with (xVelocity s) by ring.
        replace (y s0 + yVelocity s - y s0) with (yVelocity s) by ring.
        exact U. }
      destruct (moveSnake_cases r1 r2 s s0 rest Hs)
        as (t & Ht & _ & _ & [[F _] | [F _]]);
        rewrite Ht in Ho; injection Ho as <-; rewrite F; [exact C|].
      exact (chain_removelast _ C).
    + apply checkGameOver_fields in Ho. destruct Ho as (F & _). now rewrite F.
    + injection Ho as <-.
      destruct (nextTick_fields s) as (_ & _ & _ & _ & _ & F & _). now rewrite F.
    + injection Ho as <-.
      destruct (changeDirection_fields k s) as (_ & _ & _ & F). now rewrite F.
    + injection Ho as <-. exact startSnake_chain.
Qed.

(** X7. In every reachable state the timer callback runs to its end, without a
    [TypeError] on [snake[0]], and leaves a reachable state. *)
Theorem tick_never_raises (r1 r2 : Q) (s : State) :
  reachable gameWidth gameHeight s ->
  exists s', tick gameWidth gameHeight r1 r2 s = Some s' /\
             reachable gameWidth gameHeight s'.
Proof.
  intro Hr.
  destruct (reachable_total gameWidth gameHeight (OpMove r1 r2) s Hr) as (s1 & H1).
  pose proof (reach_op _ _ _ _ _ Hr H1) as Hr1.
  destruct (reachable_total gameWidth gameHeight OpCheck s1 Hr1) as (s2 & H2).
  pose proof (reach_op _ _ _ _ _ Hr1 H2) as Hr2.
  cbn in H1, H2. unfold tick. rewrite H1. cbn [bind]. rewrite H2. cbn [bind].
  eexists. split; [reflexivity|].
  exact (reach_op _ _ OpNextTick s2 _ Hr2 eq_refl).
Qed.

(** *** Keys *)

(** X8. A key that is not one of the four arrows changes nothing. *)
Theorem other_keys_are_ignored (k : string) (s : State) :
  k <> "ArrowLeft"%string -> k <> "ArrowUp"%string ->
  k <> "ArrowRight"%string -> k <> "ArrowDown"%string ->
  changeDirection k s = s.
Proof.
  intros HL HU HR HD. apply changeDirection_other_key.
  intros [] E; cbn in E; auto.
Qed.

(** X9. Whatever the key and the state, [changeDirection] writes the velocity
    only, and the velocity it leaves is the old one or the unit step of the
    arrow pressed. *)
Theorem changeDirection_writes_velocity_only (k : string) (s : State) :
  let s' := changeDirection k s in
  running s' = running s /\ snake s' = snake s /\
  food s' = food s /\ score s' = score s /\
  (velocity s' = velocity s \/
   exists d, k = key_of d /\ velocity s' = step_of d).
Proof.
  cbv zeta. unfold changeDirection.
  destruct (String.eqb_spec k "ArrowLeft") as [->|_];
    [destruct (negb (xVelocity s =? unitSize)); cbn;
     repeat split; auto; right; exists DLeft; auto|].
  destruct (String.eqb_spec k "ArrowUp") as [->|_];
    [destruct (negb (yVelocity s =? unitSize)); cbn;
     repeat split; auto; right; exists DUp; auto|].
  destruct (String.eqb_spec k "ArrowRight") as [->|_];
    [destruct (negb (xVelocity s =? - unitSize)); cbn;
     repeat split; auto; right; exists DRight; auto|].
  destruct (String.eqb_spec k "ArrowDown") as [->|_];
    [destruct (negb (yVelocity s =? - unitSize)); cbn;
     repeat split; auto; right; exists DDown; auto|].
  cbn. repeat split; auto.
Qed.

(** X10. The guard of [changeDirection] compares with the velocity, not with the
    last move: an arrow across the motion followed by the arrow against it,
    both before the next tick, turn the velocity round. *)
Theorem two_keys_reverse (across back : Direction) (s : State) :
  unit_step s ->
  reverses back s ->
  across <> back -> step_of across <> velocity s ->
  velocity (changeDirection (key_of back) (changeDirection (key_of across) s))
  = (- xVelocity s, - yVelocity s).
Proof.
  unfold unit_step, reverses, velocity.
  intros [H | [H | [H | H]]] R Hne Hv; injection H as Hx Hy;
    rewrite Hx, Hy in R, Hv |- *;
    destruct back; try discriminate R;
    destruct across;
    try (exfalso; apply Hne; reflexivity);
    try (exfalso; apply Hv; reflexivity);
    unfold changeDirection; rewrite Hx, Hy; reflexivity.
Qed.

(** X11. A snake of three segments or more whose velocity points from the head to
    the second segment ends the game at the next tick, whether or not the
    head finds the food there. *)
Theorem tick_into_neck (r1 r2 : Q) (s : State) (s0 s1 s2 : Segment)
    (rest : list Segment) :
  snake s = s0 :: s1 :: s2 :: rest ->
  x s0 + xVelocity s = x s1 -> y s0 + yVelocity s = y s1 ->
  exists s', tick gameWidth gameHeight r1 r2 s = Some s' /\ running s' = false.
Proof.
  intros Hs Hx Hy.
  destruct (moveSnake_cases r1 r2 s s0 (s1 :: s2 :: rest) Hs)
    as (t & Ht & _ & _ & Hsn).
  assert (Hin : exists tl, snake t = mkSegment (x s1) (y s1) :: tl /\ In s1 tl).
  { rewrite Hx, Hy in Hsn. destruct Hsn as [[F _] | [F _]]; rewrite F.
    - eexists. split; [reflexivity|]. right. left. reflexivity.
    - change (removelast (s0 :: s1 :: s2 :: rest))
        with (s0 :: s1 :: removelast (s2 :: rest)).
      eexists. split; [reflexivity|]. right. left. reflexivity. }
  destruct Hin as (tl & Htl & Hin).
  unfold tick. rewrite Ht. cbn [bind].
  unfold checkGameOver. rewrite Htl. cbn [bind].
  eexists. split; [reflexivity|].
  destruct (nextTick_fields
              (fold_left (hitSegment (mkSegment (x s1) (y s1))) tl
                 (if x (mkSegment (x s1) (y s1)) <? 0 then set_running false t
                  else if x (mkSegment (x s1) (y s1)) >=? gameWidth
                  then set_running false t
                  else if y (mkSegment (x s1) (y s1)) <? 0 then set_running false t
                  else if y (mkSegment (x s1) (y s1)) >=? gameHeight
                  then set_running false t
                  else t)))
    as (_ & _ & _ & _ & _ & _ & F).
  rewrite F. now apply loop_hit with (si := s1).
Qed.

(** X12. [changeDirection] of [index.js] does for the key codes 37, 38, 39 and 40
    what [changeDirection] of [script.ts] does for the four arrow keys, and
    nothing for any other code. *)
Theorem changeDirection_js_agrees (keyCode : Z) (s : State) :
  changeDirection_js keyCode s =
  match keyCode with
  | 37 => changeDirection "ArrowLeft" s
  | 38 => changeDirection "ArrowUp" s
  | 39 => changeDirection "ArrowRight" s
  | 40 => changeDirection "ArrowDown" s
  | _ => s
  end.
Proof.
  unfold changeDirection_js, changeDirection. cbv zeta.
  destruct (Z.eqb_spec keyCode 37) as [->|N1]; [reflexivity|].
  destruct (Z.eqb_spec keyCode 38) as [->|N2];
    [cbn; repeat match goal with
                 | |- context [if ?c then _ else _] => destruct c
                 end; reflexivity|].
  destruct (Z.eqb_spec keyCode 39) as [->|N3];
    [cbn; repeat match goal with
                 | |- context [if ?c then _ else _] => destruct c
                 end; reflexivity|].
  destruct (Z.eqb_spec keyCode 40) as [->|N4];
    [cbn; repeat match goal with
                 | |- context [if ?c then _ else _] => destruct c
                 end; reflexivity|].
  cbn [andb].
  destruct keyCode as [|q|q]; try reflexivity.
  do 6 (destruct q as [q|q|]; try reflexivity); lia.
Qed.

(** *** Where [randomFood] puts the food *)

Lemma Math_round_iff (q : Q) (m : Z) :
  Math_round q = m <->
  (inject_Z m - (1 # 2) <= q /\ q < inject_Z m + (1 # 2))%Q.
Proof.
  unfold Math_round. split.
  - intros <-. pose proof (Qfloor_le (q + (1 # 2))) as L.
    pose proof (Qlt_floor (q + (1 # 2))) as U.
    rewrite inject_Z_plus in U. change (inject_Z 1) with 1%Q in U.
    split; lra.
  - intros [L U]. apply Z.le_antisymm.
    + apply Z.lt_succ_r. rewrite Zlt_Qlt.
      eapply Qle_lt_trans; [apply Qfloor_le|].
      unfold Z.succ. rewrite inject_Z_plus. change (inject_Z 1) with 1%Q. lra.
    + rewrite <- (Qfloor_Z m). apply Qfloor_resp_le. lra.
Qed.


Lemma randomFood_scaled (rnd : Q) (k : Z) :
  ((rnd * inject_Z (k * unitSize - 0) + inject_Z 0) / inject_Z unitSize
   == rnd * inject_Z k)%Q.
Proof.
  rewrite Z.sub_0_r, inject_Z_mult. change (inject_Z 0) with 0%Q.
  change (inject_Z unitSize) with 25%Q. field.
Qed.


Lemma draw_for_cell (m k : Z) :
  0 <= m <= k ->
  let rnd := (inject_Z m / (inject_Z k + (1 # 2)))%Q in
  (0 <= rnd)%Q /\ (rnd < 1)%Q /\ randomFood rnd 0 (k * unitSize) = m * unitSize.
Proof.
  intros [Hm Hk] rnd.
  assert (M : (0 <= inject_Z m)%Q)
    by (change 0%Q with (inject_Z 0); now rewrite <- Zle_Qle).
  assert (K : (inject_Z m <= inject_Z k)%Q) by (now rewrite <- Zle_Qle).
  assert (D : (0 < inject_Z k + (1 # 2))%Q) by lra.
  assert (E : (rnd * inject_Z k + rnd * (1 # 2) == inject_Z m)%Q)
    by (unfold rnd; field; lra).
  assert (R0 : (0 <= rnd)%Q)
    by (unfold rnd; apply Qle_shift_div_l; [exact D | lra]).
  assert (R1 : (rnd < 1)%Q)
    by (unfold rnd; apply Qlt_shift_div_r; [exact D | lra]).
  split; [exact R0|]. split; [exact R1|].
  unfold randomFood. f_equal.
  apply Math_round_iff. rewrite randomFood_scaled. split; lra.
Qed.

(** X15. On a board [w] cells wide, every cell of the [w] by [w] square at the
    origin is the food for some pair of draws in [0, 1): [createFood] rules
    no cell out, the cells under the snake included. *)
Theorem createFood_reaches_every_cell (s : State) (w cx cy : Z) :
  gameWidth = w * unitSize ->
  0 <= cx < w -> 0 <= cy < w ->
  exists r1 r2,
    (0 <= r1)%Q /\ (r1 < 1)%Q /\ (0 <= r2)%Q /\ (r2 < 1)%Q /\
    food (createFood gameWidth r1 r2 s)
    = (Some (cx * unitSize), Some (cy * unitSize)).
Proof.
  intros Hw Hx Hy.
  assert (R : gameWidth - unitSize = (w - 1) * unitSize) by (rewrite Hw; ring).
  destruct (draw_for_cell cx (w - 1)) as (A1 & B1 & E1); [lia|].
  destruct (draw_for_cell cy (w - 1)) as (A2 & B2 & E2); [lia|].
  exists (inject_Z cx / (inject_Z (w - 1) + (1 # 2)))%Q,
         (inject_Z cy / (inject_Z (w - 1) + (1 # 2)))%Q.
  split; [exact A1|]. split; [exact B1|]. split; [exact A2|]. split; [exact B2|].
  unfold createFood, food. cbn [foodX foodY set_food].
  now rewrite R, E1, E2.
Qed.

End GameFacts.

(** ** The page *)

Section PageFacts.

Variables gameWidth gameHeight : Z.

Local Abbreviation gameStartP := (Browser.gameStart gameWidth gameHeight).
Local Abbreviation nextTickP := (Browser.nextTick gameWidth gameHeight).
Local Abbreviation moveSnakeP := (Browser.moveSnake gameWidth).
Local Abbreviation checkGameOverP := (Browser.checkGameOver gameWidth gameHeight).
Local Abbreviation resetGameP := (Browser.resetGame gameWidth gameHeight).
Local Abbreviation onTimeoutP := (Browser.onTimeout gameWidth gameHeight).
Local Abbreviation handleP := (Browser.handle gameWidth gameHeight).
Local Abbreviation visitedP := (Browser.visited gameWidth gameHeight).
Local Abbreviation clearBoardP := (Browser.clearBoard gameWidth gameHeight).

(** *** The variables of the page follow the functions on [State] *)

Lemma game_nextTick (p : Browser.Page) :
  Browser.game (nextTickP p) = nextTick (Browser.game p).
Proof.
  unfold Browser.nextTick, nextTick. now destruct (running (Browser.game p)).
Qed.

Lemma gameStart_page (r1 r2 : Q) (p : Browser.Page) :
  gameStartP r1 r2 p =
  Browser.mkPage
    (gameStart gameWidth r1 r2 (Browser.game p))
    (Browser.ctx_fillRect (randomFood r1 0 (gameWidth - unitSize))
       (randomFood r2 0 (gameWidth - unitSize)) unitSize unitSize
       (Browser.set_fillStyle Browser.foodColor (Browser.gameContext p)))
    (Browser.toString (score (Browser.game p)))
    (S (Browser.pending p)).
Proof. reflexivity. Qed.

Lemma game_resetGame (r1 r2 : Q) (p : Browser.Page) :
  Browser.game (resetGameP r1 r2 p) = resetGame gameWidth r1 r2 (Browser.game p).
Proof. reflexivity. Qed.

Lemma game_moveSnake (r1 r2 : Q) (p : Browser.Page) :
  option_map Browser.game (moveSnakeP r1 r2 p)
  = moveSnake gameWidth r1 r2 (Browser.game p).
Proof.
  unfold Browser.moveSnake, moveSnake.
  destruct (snake (Browser.game p)) as [|s0 rest]; [reflexivity|].
  cbn [Browser.game Browser.set_game].
  match goal with
  | |- context [if ?c then _ else _] => destruct c
  end; reflexivity.
Qed.

Lemma moveSnake_page (r1 r2 : Q) (p : Browser.Page) (g : State) :
  moveSnake gameWidth r1 r2 (Browser.game p) = Some g ->
  exists p', moveSnakeP r1 r2 p = Some p' /\ Browser.game p' = g /\
    Browser.gameContext p' = Browser.gameContext p /\
    Browser.pending p' = Browser.pending p /\
    (Browser.scoreText p = Browser.toString (score (Browser.game p)) ->
     Browser.scoreText p' = Browser.toString (score g)).
Proof.
  intro Hg. pose proof (game_moveSnake r1 r2 p) as E. rewrite Hg in E.
  revert E. unfold Browser.moveSnake.
  destruct (snake (Browser.game p)) as [|s0 rest]; [discriminate|].
  match goal with
  | |- context [if ?c then _ else _] => destruct c
  end; cbn [option_map]; intros [= <-];
    (eexists; split; [reflexivity|]); cbn; auto.
Qed.

Lemma checkGameOver_page (p : Browser.Page) (g : State) :
  checkGameOver gameWidth gameHeight (Browser.game p) = Some g ->
  checkGameOverP p = Some (Browser.set_game g p).
Proof. unfold Browser.checkGameOver. now intros ->. Qed.

(** With a snake of at least one segment the callback raises nothing: it is
    [moveSnake], [checkGameOver] and [nextTick] on the variables, between
    the calls that paint. *)
Lemma onTimeout_steps (r1 r2 : Q) (p : Browser.Page) :
  snake (Browser.game p) <> [] ->
  exists g1 g2 p2,
    moveSnake gameWidth r1 r2 (Browser.game p) = Some g1 /\
    checkGameOver gameWidth gameHeight g1 = Some g2 /\
    Browser.game p2 = g1 /\
    Browser.gameContext p2
    = Browser.gameContext (Browser.drawFood (clearBoardP p)) /\
    Browser.pending p2 = Browser.pending p /\
    (Browser.scoreText p = Browser.toString (score (Browser.game p)) ->
     Browser.scoreText p2 = Browser.toString (score g1)) /\
    onTimeoutP r1 r2 p = nextTickP (Browser.set_game g2 (Browser.drawSnake p2)).
Proof.
  intro Hne.
  destruct (snake (Browser.game p)) as [|s0 rest] eqn:Hs; [now destruct Hne|].
  destruct (moveSnake_cases gameWidth r1 r2 (Browser.game p) s0 rest Hs)
    as (g1 & Hg1 & _).
  assert (D : Browser.game (Browser.drawFood (clearBoardP p)) = Browser.game p /\
              Browser.pending (Browser.drawFood (clearBoardP p)) = Browser.pending p /\
              Browser.scoreText (Browser.drawFood (clearBoardP p))
              = Browser.scoreText p).
  { unfold Browser.drawFood, Browser.clearBoard.
    cbn [Browser.game Browser.set_gameContext].
    destruct (foodX (Browser.game p)), (foodY (Browser.game p)); auto. }
  destruct D as (Dg & Dp & Dt).
  assert (Hg1' : moveSnake gameWidth r1 r2
                   (Browser.game (Browser.drawFood (clearBoardP p))) = Some g1)
    by (now rewrite Dg).
  destruct (moveSnake_page r1 r2 _ g1 Hg1') as (p2 & Hp2 & Hgp2 & Hc & Hpe & Ht).
  pose proof (moveSnake_fields gameWidth r1 r2 _ _ Hg1) as (_ & _ & Hlen).
  destruct (snake g1) as [|h1 t1] eqn:Hs1; [cbn in Hlen; lia|].
  assert (Hg2 : exists g2, checkGameOver gameWidth gameHeight g1 = Some g2).
  { unfold checkGameOver. rewrite Hs1. eauto. }
  destruct Hg2 as (g2 & Hg2).
  exists g1, g2, p2.
  split; [exact Hg1|]. split; [exact Hg2|]. split; [exact Hgp2|].
  split; [exact Hc|]. split; [now rewrite Hpe|].
  split; [rewrite Dt, Dg in Ht; exact Ht|].
  unfold Browser.onTimeout. rewrite Hp2.
  rewrite (checkGameOver_page (Browser.drawSnake p2) g2); [reflexivity|].
  unfold Browser.drawSnake. cbn [Browser.game Browser.set_gameContext].
  now rewrite Hgp2.
Qed.

Lemma tick_reachable (r1 r2 : Q) (s s' : State) :
  reachable gameWidth gameHeight s ->
  tick gameWidth gameHeight r1 r2 s = Some s' ->
  reachable gameWidth gameHeight s'.
Proof.
  intros Hr. unfold tick.
  destruct (moveSnake gameWidth r1 r2 s) as [s1|] eqn:H1; [|discriminate].
  cbn [bind].
  destruct (checkGameOver gameWidth gameHeight s1) as [s2|] eqn:H2; [|discriminate].
  cbn [bind]. intros [= <-].
  apply (reach_op _ _ OpNextTick s2); [|reflexivity].
  apply (reach_op _ _ OpCheck s1); [|exact H2].
  apply (reach_op _ _ (OpMove r1 r2) s); assumption.
Qed.

Lemma onTimeout_tick (r1 r2 : Q) (p : Browser.Page) :
  snake (Browser.game p) <> [] ->
  tick gameWidth gameHeight r1 r2 (Browser.game p)
  = Some (Browser.game (onTimeoutP r1 r2 p)).
Proof.
  intro Hne.
  destruct (onTimeout_steps r1 r2 p Hne)
    as (g1 & g2 & p2 & H1 & H2 & _ & _ & _ & _ & E).
  unfold tick. rewrite H1. cbn [bind]. rewrite H2. cbn [bind].
  now rewrite E, game_nextTick.
Qed.

Lemma visited_reachable (p : Browser.Page) :
  visitedP p -> reachable gameWidth gameHeight (Browser.game p).
Proof.
  induction 1 as [r1 r2 c t | e p p' _ IH He].
  - apply reach_load.
  - destruct e as [r1 r2 | k | r1 r2]; cbn in He.
    + destruct (Browser.pending p) as [|n]; [discriminate|].
      injection He as <-.
      apply (tick_reachable r1 r2 (Browser.game p)); [exact IH|].
      apply (onTimeout_tick r1 r2 (Browser.set_pending n p)).
      apply reachable_snake in IH. cbn.
      destruct (snake (Browser.game p)); [cbn in IH; lia | discriminate].
    + injection He as <-.
      exact (reach_op _ _ (OpKey k) _ _ IH eq_refl).
    + injection He as <-.
      exact (reach_op _ _ (OpReset r1 r2) _ _ IH eq_refl).
Qed.

Lemma visited_snake (p : Browser.Page) :
  visitedP p -> snake (Browser.game p) <> [].
Proof.
  intro H. apply visited_reachable, reachable_snake in H.
  destruct (snake (Browser.game p)); [cbn in H; lia | discriminate].
Qed.

(** *** Timers *)

Lemma nextTick_page (p : Browser.Page) :
  running (Browser.game (nextTickP p)) = running (Browser.game p) /\
  snake (Browser.game (nextTickP p)) = snake (Browser.game p) /\
  score (Browser.game (nextTickP p)) = score (Browser.game p) /\
  Browser.scoreText (nextTickP p) = Browser.scoreText p /\
  Browser.pending (nextTickP p)
  = (if running (Browser.game p) then S (Browser.pending p) else Browser.pending p).
Proof.
  unfold Browser.nextTick.
  destruct (running (Browser.game p)) eqn:E; cbn; auto.
Qed.

Lemma timeout_page (r1 r2 : Q) (p p' : Browser.Page) :
  visitedP p ->
  handleP (Browser.Timeout r1 r2) p = Some p' ->
  exists n g1 g2 p2,
    Browser.pending p = S n /\
    moveSnake gameWidth r1 r2 (Browser.game p) = Some g1 /\
    checkGameOver gameWidth gameHeight g1 = Some g2 /\
    Browser.game p2 = g1 /\
    Browser.gameContext p2
    = Browser.gameContext (Browser.drawFood (clearBoardP p)) /\
    Browser.pending p2 = n /\
    (Browser.scoreText p = Browser.toString (score (Browser.game p)) ->
     Browser.scoreText p2 = Browser.toString (score g1)) /\
    p' = nextTickP (Browser.set_game g2 (Browser.drawSnake p2)).
Proof.
  intros Hv He. cbn in He.
  destruct (Browser.pending p) as [|n] eqn:Hp; [discriminate|].
  injection He as <-.
  destruct (onTimeout_steps r1 r2 (Browser.set_pending n p))
    as (g1 & g2 & p2 & H1 & H2 & H3 & H4 & H5 & H6 & H7).
  { cbn. now apply visited_snake. }
  cbn [Browser.game Browser.pending Browser.scoreText Browser.set_pending]
    in H1, H5, H6.
  exists n, g1, g2, p2.
  split; [reflexivity|]. split; [exact H1|]. split; [exact H2|].
  split; [exact H3|].
  split.
  { rewrite H4. unfold Browser.drawFood, Browser.clearBoard.
    cbn [Browser.game Browser.gameContext Browser.set_gameContext
         Browser.set_pending].
    destruct (foodX (Browser.game p)), (foodY (Browser.game p)); reflexivity. }
  split; [exact H5|]. split; [exact H6 | exact H7].
Qed.

Lemma visited_has_timer (p : Browser.Page) :
  visitedP p -> running (Browser.game p) = true ->
  exists n, Browser.pending p = S n.
Proof.
  induction 1 as [r1 r2 c t | e p p' Hv IH He]; intro Hrun.
  - unfold Browser.load. rewrite gameStart_page. cbn. eauto.
  - destruct e as [r1 r2 | k | r1 r2].
    + destruct (timeout_page r1 r2 p p' Hv He)
        as (n & g1 & g2 & p2 & _ & _ & _ & _ & _ & _ & _ & ->).
      destruct (nextTick_page (Browser.set_game g2 (Browser.drawSnake p2)))
        as (Fr & _ & _ & _ & Fp).
      rewrite Fr in Hrun. rewrite Fp, Hrun. eauto.
    + cbn in He. injection He as <-.
      apply IH. cbn in Hrun.
      destruct (changeDirection_fields k (Browser.game p)) as (F & _).
      now rewrite <- F.
    + injection He as <-.
      unfold Browser.resetGame. rewrite gameStart_page. cbn. eauto.
Qed.

(** X17. While the game is running a callback is waiting: the next tick can
    always run, and what it does to the variables is [moveSnake],
    [checkGameOver], [nextTick]. *)
Theorem running_game_can_tick (r1 r2 : Q) (p : Browser.Page) :
  visitedP p -> running (Browser.game p) = true ->
  exists p', handleP (Browser.Timeout r1 r2) p = Some p' /\
    tick gameWidth gameHeight r1 r2 (Browser.game p) = Some (Browser.game p').
Proof.
  intros Hv Hrun. destruct (visited_has_timer p Hv Hrun) as (n & Hn).
  cbn. rewrite Hn. eexists. split; [reflexivity|].
  apply (onTimeout_tick r1 r2 (Browser.set_pending n p)).
  cbn. now apply visited_snake.
Qed.

(** X18. A click on the reset button while the game is running leaves two
    callbacks or more waiting: the one that was there goes on, and
    [gameStart] arms another. *)
Theorem reset_while_running_adds_a_loop (r1 r2 : Q) (p : Browser.Page) :
  visitedP p -> running (Browser.game p) = true ->
  Browser.pending (resetGameP r1 r2 p) = S (Browser.pending p) /\
  (2 <= Browser.pending (resetGameP r1 r2 p))%nat.
Proof.
  intros Hv Hrun. destruct (visited_has_timer p Hv Hrun) as (n & Hn).
  unfold Browser.resetGame. rewrite gameStart_page. cbn. rewrite Hn.
  split; [reflexivity | lia].
Qed.

(** X19. A callback that leaves the game running leaves as many callbacks waiting
    as it found; one that leaves the game over leaves one fewer. *)
Theorem timeout_keeps_the_count (r1 r2 : Q) (p p' : Browser.Page) :
  visitedP p ->
  handleP (Browser.Timeout r1 r2) p = Some p' ->
  Browser.pending p'
  = (if running (Browser.game p') then Browser.pending p
     else pred (Browser.pending p)).
Proof.
  intros Hv He.
  destruct (timeout_page r1 r2 p p' Hv He)
    as (n & g1 & g2 & p2 & Hn & _ & _ & _ & _ & Hp2 & _ & ->).
  destruct (nextTick_page (Browser.set_game g2 (Browser.drawSnake p2)))
    as (Fr & _ & _ & _ & Fp).
  rewrite Fr, Fp, Hn. cbn. rewrite Hp2.
  now destruct (running g2).
Qed.

Lemma checkGameOver_stays_stopped (g g' : State) :
  running g = false ->
  checkGameOver gameWidth gameHeight g = Some g' ->
  running g' = false.
Proof.
  intros Hstop. unfold checkGameOver.
  destruct (snake g) as [|s0 rest]; [discriminate|].
  intros [= <-]. apply loop_stays_stopped.
  repeat match goal with
         | |- context [if ?c then _ else _] => destruct c
         end; auto.
Qed.

(** X20. A callback still waiting when the game is over runs all the same: it
    moves the head one step further and leaves the game over. *)
Theorem callback_after_game_over (r1 r2 : Q) (p p' : Browser.Page) :
  visitedP p -> running (Browser.game p) = false ->
  handleP (Browser.Timeout r1 r2) p = Some p' ->
  exists s0,
    hd_error (snake (Browser.game p)) = Some s0 /\
    hd_error (snake (Browser.game p'))
    = Some (mkSegment (x s0 + xVelocity (Browser.game p))
                      (y s0 + yVelocity (Browser.game p))) /\
    running (Browser.game p') = false.
Proof.
  intros Hv Hstop He.
  destruct (timeout_page r1 r2 p p' Hv He)
    as (n & g1 & g2 & p2 & _ & H1 & H2 & _ & _ & _ & _ & ->).
  destruct (nextTick_page (Browser.set_game g2 (Browser.drawSnake p2)))
    as (Fr & Fs & _).
  rewrite Fr, Fs. cbn [Browser.game Browser.set_game].
  destruct (snake (Browser.game p)) as [|s0 rest] eqn:Hs;
    [now destruct (visited_snake p Hv)|].
  destruct (moveSnake_cases gameWidth r1 r2 (Browser.game p) s0 rest Hs)
    as (g & Hg & Hr & _ & Hsn).
  rewrite Hg in H1. injection H1 as ->.
  destruct (checkGameOver_fields gameWidth gameHeight g1 g2 H2) as (F & _).
  exists s0. split; [reflexivity|]. split.
  - rewrite F. destruct Hsn as [[E _] | [E _]]; now rewrite E.
  - apply (checkGameOver_stays_stopped g1 g2); [|exact H2]. now rewrite Hr.
Qed.

(** *** The score element *)

(** X21. On every page visited the score element shows the score. *)
Theorem score_text_shows_score (p : Browser.Page) :
  visitedP p ->
  Browser.scoreText p = Browser.toString (score (Browser.game p)).
Proof.
  induction 1 as [r1 r2 c t | e p p' Hv IH He].
  - reflexivity.
  - destruct e as [r1 r2 | k | r1 r2].
    + destruct (timeout_page r1 r2 p p' Hv He)
        as (n & g1 & g2 & p2 & _ & _ & H2 & _ & _ & _ & Ht & ->).
      destruct (nextTick_page (Browser.set_game g2 (Browser.drawSnake p2)))
        as (_ & _ & Fs & Ft & _).
      rewrite Ft, Fs. cbn.
      destruct (checkGameOver_fields gameWidth gameHeight g1 g2 H2)
        as (_ & _ & _ & F).
      rewrite F. exact (Ht IH).
    + cbn in He. injection He as <-. cbn.
      destruct (changeDirection_fields k (Browser.game p)) as (_ & _ & F & _).
      now rewrite F.
    + cbn in He. injection He as <-. reflexivity.
Qed.

(** *** The head while the game is running *)

Lemma checkGameOver_running (g g' : State) :
  checkGameOver gameWidth gameHeight g = Some g' ->
  running g' = true ->
  Browser.head_clear gameWidth gameHeight g'.
Proof.
  intros Hc Hrun.
  destruct (checkGameOver_fields gameWidth gameHeight g g' Hc) as (Fs & _).
  unfold Browser.head_clear. rewrite Fs.
  revert Hc. unfold checkGameOver.
  destruct (snake g) as [|s0 rest]; [discriminate|].
  intros [= <-]. apply loop_running_iff in Hrun. destruct Hrun as [Hrun Hfree].
  destruct (x s0 <? 0) eqn:E1; [discriminate Hrun|].
  destruct (x s0 >=? gameWidth) eqn:E2; [discriminate Hrun|].
  destruct (y s0 <? 0) eqn:E3; [discriminate Hrun|].
  destruct (y s0 >=? gameHeight) eqn:E4; [discriminate Hrun|].
  apply Z.ltb_ge in E1, E3.
  rewrite Z.geb_leb in E2, E4. apply Z.leb_gt in E2, E4.
  repeat split; auto; lia.
Qed.

Lemma startSnake_clear (g : State) :
  4 * unitSize < gameWidth -> 0 < gameHeight ->
  snake g = startSnake ->
  Browser.head_clear gameWidth gameHeight g.
Proof.
  intros Hw Hh Hs. unfold Browser.head_clear. rewrite Hs.
  change unitSize with 25 in Hw. cbn.
  repeat split; try lia.
  intros si [<- | [<- | [<- | [<- | []]]]] [Hx _]; discriminate Hx.
Qed.

(** X22. On a board more than four cells wide and of positive height, whenever
    the game is running the head is on the board and on no cell of the
    body. *)
Theorem running_head_is_clear (p : Browser.Page) :
  4 * unitSize < gameWidth -> 0 < gameHeight ->
  visitedP p -> running (Browser.game p) = true ->
  Browser.head_clear gameWidth gameHeight (Browser.game p).
Proof.
  intros Hw Hh Hv. induction Hv as [r1 r2 c t | e p p' Hv IH He]; intro Hrun.
  - now apply startSnake_clear.
  - destruct e as [r1 r2 | k | r1 r2].
    + destruct (timeout_page r1 r2 p p' Hv He)
        as (n & g1 & g2 & p2 & _ & _ & H2 & _ & _ & _ & _ & ->).
      destruct (nextTick_page (Browser.set_game g2 (Browser.drawSnake p2)))
        as (Fr & Fs & _).
      rewrite Fr in Hrun. cbn in Hrun, Fs.
      pose proof (checkGameOver_running g1 g2 H2 Hrun) as C.
      unfold Browser.head_clear in *. now rewrite Fs.
    + injection He as <-. cbn [Browser.game Browser.changeDirection Browser.set_game] in *.
      destruct (changeDirection_fields k (Browser.game p)) as (Fr & _ & _ & Fs).
      rewrite Fr in Hrun. specialize (IH Hrun).
      unfold Browser.head_clear in *. now rewrite Fs.
    + injection He as <-. now apply startSnake_clear.
Qed.

(** *** What a callback paints *)

Lemma drawParts (l : list Segment) (c : Browser.Context2D) :
  let c' := fold_left Browser.drawPart l c in
  Browser.fillStyle c' = Browser.fillStyle c /\
  Browser.strokeStyle c' = Browser.strokeStyle c /\
  Browser.font c' = Browser.font c /\
  Browser.textAlign c' = Browser.textAlign c /\
  Browser.painted c'
  = Browser.painted c
    ++ flat_map (fun part =>
         [ Browser.fillRect (Browser.fillStyle c) (x part) (y part) unitSize unitSize;
           Browser.strokeRect (Browser.strokeStyle c) (x part) (y part)
             unitSize unitSize ]) l.
Proof.
  revert c. induction l as [|part l IH]; intro c; cbn [fold_left flat_map].
  - cbv zeta. now rewrite app_nil_r.
  - destruct (IH (Browser.drawPart c part)) as (F1 & F2 & F3 & F4 & F5).
    cbv zeta. rewrite F1, F2, F3, F4, F5. cbn.
    repeat split. now rewrite <- !app_assoc.
Qed.

(** X23. A callback adds to what is painted, in this order: the whole board in
    white, the food in red where it was when the callback started, every
    segment of the snake as the callback leaves it, filled in light green
    and outlined in black, head first, and the game-over text in the middle
    of the board if the callback leaves the game over. *)
Theorem timeout_paints_a_frame (r1 r2 : Q) (p p' : Browser.Page) (fx fy : Z) :
  visitedP p ->
  food (Browser.game p) = (Some fx, Some fy) ->
  handleP (Browser.Timeout r1 r2) p = Some p' ->
  Browser.painted (Browser.gameContext p')
  = Browser.painted (Browser.gameContext p)
    ++ Browser.frame gameWidth gameHeight fx fy (Browser.game p').
Proof.
  intros Hv Hfood He. injection Hfood as Hfx Hfy.
  destruct (timeout_page r1 r2 p p' Hv He)
    as (n & g1 & g2 & p2 & _ & _ & H2 & Hg & Hc & _ & _ & ->).
  destruct (checkGameOver_fields gameWidth gameHeight g1 g2 H2) as (Fs & _).
  destruct (nextTick_page (Browser.set_game g2 (Browser.drawSnake p2)))
    as (Fr & Fsn & _).
  unfold Browser.frame. rewrite Fr, Fsn.
  cbn [Browser.game Browser.set_game]. rewrite Fs.
  unfold Browser.nextTick. cbn [Browser.game Browser.set_game].
  assert (D : Browser.painted (Browser.gameContext (Browser.drawSnake p2))
              = Browser.painted (Browser.gameContext p)
                ++ [ Browser.fillRect Browser.boardBackground 0 0 gameWidth gameHeight;
                     Browser.fillRect Browser.foodColor fx fy unitSize unitSize ]
                ++ flat_map (fun part =>
                     [ Browser.fillRect Browser.snakeColor (x part) (y part)
                         unitSize unitSize;
                       Browser.strokeRect Browser.snakeBorder (x part) (y part)
                         unitSize unitSize ]) (snake g1)).
  { unfold Browser.drawSnake. cbn [Browser.gameContext Browser.set_gameContext].
    rewrite Hg.
    destruct (drawParts (snake g1)
                (Browser.set_strokeStyle Browser.snakeBorder
                   (Browser.set_fillStyle Browser.snakeColor
                      (Browser.gameContext p2)))) as (_ & _ & _ & _ & F).
    cbv zeta in F. rewrite F. cbn [Browser.painted Browser.fillStyle
      Browser.strokeStyle Browser.set_fillStyle Browser.set_strokeStyle].
    rewrite Hc. unfold Browser.drawFood, Browser.clearBoard.
    cbn [Browser.game Browser.set_gameContext]. rewrite Hfx, Hfy.
    cbn. rewrite <- ?app_assoc. reflexivity. }
  destruct (running g2).
  - cbn [Browser.gameContext Browser.set_pending Browser.set_game].
    rewrite D, ?app_nil_r, <- ?app_assoc. reflexivity.
  - unfold Browser.displayGameOver.
    cbn [Browser.gameContext Browser.set_gameContext Browser.set_game
         Browser.painted Browser.ctx_fillText Browser.paint
         Browser.font Browser.fillStyle Browser.textAlign
         Browser.set_font Browser.set_fillStyle Browser.set_textAlign].
    rewrite D. rewrite <- ?app_assoc. reflexivity.
Qed.

End PageFacts.

(** ** These facts on the sample states *)

Lemma checkGameOver_verdict_witness :
  exists s', checkGameOver 500 500 loaded = Some s' /\ running s' = true.
Proof.
  destruct (checkGameOver_verdict 500 500 loaded (mkSegment 100 0)
              [mkSegment 75 0; mkSegment 50 0; mkSegment 25 0; mkSegment 0 0]
              eq_refl) as (s' & Hs' & Hiff).
  exists s'. split; [exact Hs'|]. apply Hiff.
  split; [reflexivity|]. split; [cbn; lia|]. split; [cbn; lia|].
  intros si [<- | [<- | [<- | [<- | []]]]] [Hx _]; discriminate Hx.
Defined.

Lemma game_over_is_sticky_witness :
  running (changeDirection "ArrowUp" (set_running false loaded)) = false.
Proof.
  apply (game_over_is_sticky 500 500 (OpKey "ArrowUp") (set_running false loaded)).
  - reflexivity.
  - intros r1 r2 H. discriminate H.
  - reflexivity.
Defined.

Lemma snake_length_is_score_plus_5_witness :
  Z.of_nat (length (snake (changeDirection "ArrowDown" loaded)))
  = 5 + score (changeDirection "ArrowDown" loaded) /\
  0 <= score (changeDirection "ArrowDown" loaded).
Proof.
  apply (snake_length_is_score_plus_5 500 500). exact turned_reachable.
Defined.

Lemma food_always_on_grid_witness :
  exists fx fy, food loaded = (Some fx, Some fy) /\ on_grid fx /\ on_grid fy.
Proof.
  apply (food_always_on_grid 500 500). exact loaded_reachable.
Defined.

Lemma snake_always_on_grid_witness : Forall aligned (snake loaded).
Proof.
  apply (snake_always_on_grid 500 500). exact loaded_reachable.
Defined.

Lemma snake_always_a_chain_witness : chain (snake loaded).
Proof.
  apply (snake_always_a_chain 500 500). exact loaded_reachable.
Defined.

Lemma tick_never_raises_witness :
  exists s', tick 500 500 0 0 loaded = Some s' /\ reachable 500 500 s'.
Proof.
  apply (tick_never_raises 500 500). exact loaded_reachable.
Defined.

Lemma other_keys_are_ignored_witness : changeDirection "a" loaded = loaded.
Proof.
  apply other_keys_are_ignored; intro H; discriminate H.
Defined.

Lemma two_keys_reverse_witness :
  velocity (changeDirection "ArrowLeft" (changeDirection "ArrowUp" loaded))
  = (-25, 0).
Proof.
  apply (two_keys_reverse DUp DLeft loaded).
  - left. reflexivity.
  - reflexivity.
  - intro H. discriminate H.
  - intro H. discriminate H.
Defined.

Lemma tick_into_neck_witness :
  exists s', tick 500 500 0 0 (set_velocity (-25) 0 loaded) = Some s' /\
             running s' = false.
Proof.
  apply (tick_into_neck 500 500 0 0 (set_velocity (-25) 0 loaded)
           (mkSegment 100 0) (mkSegment 75 0) (mkSegment 50 0)
           [mkSegment 25 0; mkSegment 0 0]); reflexivity.
Defined.

Lemma createFood_reaches_every_cell_witness :
  exists r1 r2,
    (0 <= r1)%Q /\ (r1 < 1)%Q /\ (0 <= r2)%Q /\ (r2 < 1)%Q /\
    food (createFood 500 r1 r2 loaded) = (Some (4 * unitSize), Some (0 * unitSize)).
Proof.
  apply (createFood_reaches_every_cell 500 loaded 20 4 0).
  - reflexivity.
  - lia.
  - lia.
Defined.

Lemma createFood_on_board_if_tall_witness :
  food_on_board 500 500 (createFood 500 0 (3 # 4) loaded).
Proof.
  apply (createFood_on_board_if_tall 500 500 0 (3 # 4) loaded 20).
  - reflexivity.
  - lia.
  - lia.
  - discriminate.
  - discriminate.
  - discriminate.
  - discriminate.
Defined.

Lemma loaded_page_visited : Browser.visited 500 500 loaded_page.
Proof. apply Browser.visit_load. Defined.

Lemma turned_page_visited : Browser.visited 500 500 turned_page.
Proof.
  apply (Browser.visit_event 500 500 (Browser.KeyDown "ArrowUp") reset_page);
    [|reflexivity].
  apply (Browser.visit_event 500 500 (Browser.Click 0 0) loaded_page);
    [|reflexivity].
  exact loaded_page_visited.
Defined.

Lemma turned_page_crashes :
  Browser.handle 500 500 (Browser.Timeout 0 0) turned_page
  = Some after_reset_and_crash.
Proof. vm_compute. reflexivity. Defined.

Lemma after_reset_and_crash_visited :
  Browser.visited 500 500 after_reset_and_crash.
Proof.
  exact (Browser.visit_event 500 500 (Browser.Timeout 0 0) turned_page
           after_reset_and_crash turned_page_visited turned_page_crashes).
Defined.

Lemma late_callback_runs :
  Browser.handle 500 500 (Browser.Timeout 0 0) after_reset_and_crash
  = Some late_callback.
Proof. vm_compute. reflexivity. Defined.

Lemma running_game_can_tick_witness :
  exists p',
    Browser.handle 500 500 (Browser.Timeout 0 0) loaded_page = Some p' /\
    tick 500 500 0 0 (Browser.game loaded_page) = Some (Browser.game p').
Proof.
  apply (running_game_can_tick 500 500 0 0 loaded_page);
    [exact loaded_page_visited | vm_compute; reflexivity].
Defined.

Lemma reset_while_running_adds_a_loop_witness :
  Browser.pending (Browser.resetGame 500 500 0 0 loaded_page)
  = S (Browser.pending loaded_page) /\
  (2 <= Browser.pending (Browser.resetGame 500 500 0 0 loaded_page))%nat.
Proof.
  apply (reset_while_running_adds_a_loop 500 500 0 0 loaded_page);
    [exact loaded_page_visited | vm_compute; reflexivity].
Defined.

Lemma timeout_keeps_the_count_witness :
  Browser.pending after_reset_and_crash
  = (if running (Browser.game after_reset_and_crash)
     then Browser.pending turned_page
     else pred (Browser.pending turned_page)).
Proof.
  exact (timeout_keeps_the_count 500 500 0 0 turned_page after_reset_and_crash
           turned_page_visited turned_page_crashes).
Defined.

Lemma after_crash_is_over : running (Browser.game after_reset_and_crash) = false.
Proof. vm_compute. reflexivity. Defined.

Lemma callback_after_game_over_witness :
  exists s0,
    hd_error (snake (Browser.game after_reset_and_crash)) = Some s0 /\
    hd_error (snake (Browser.game late_callback))
    = Some (mkSegment (x s0 + xVelocity (Browser.game after_reset_and_crash))
                      (y s0 + yVelocity (Browser.game after_reset_and_crash))) /\
    running (Browser.game late_callback) = false.
Proof.
  exact (callback_after_game_over 500 500 0 0 after_reset_and_crash late_callback
           after_reset_and_crash_visited after_crash_is_over late_callback_runs).
Defined.

Lemma score_text_shows_score_witness :
  Browser.scoreText after_reset_and_crash
  = Browser.toString (score (Browser.game after_reset_and_crash)).
Proof.
  exact (score_text_shows_score 500 500 after_reset_and_crash
           after_reset_and_crash_visited).
Defined.

Lemma running_head_is_clear_witness :
  Browser.head_clear 500 500 (Browser.game loaded_page).
Proof.
  apply (running_head_is_clear 500 500 loaded_page).
  - reflexivity.
  - reflexivity.
  - exact loaded_page_visited.
  - vm_compute. reflexivity.
Defined.

Lemma after_crash_food :
  food (Browser.game after_reset_and_crash) = (Some 0, Some 0).
Proof. vm_compute. reflexivity. Defined.

Lemma timeout_paints_a_frame_witness :
  Browser.painted (Browser.gameContext late_callback)
  = Browser.painted (Browser.gameContext after_reset_and_crash)
    ++ Browser.frame 500 500 0 0 (Browser.game late_callback).
Proof.
  exact (timeout_paints_a_frame 500 500 0 0 after_reset_and_crash late_callback
           0 0 after_reset_and_crash_visited after_crash_food late_callback_runs).
Defined.
